(** * Gradient of the SROM objective with respect to the probabilities

    A shallow embedding of [optimize/Gradient.py]: the class [Gradient], its
    constructor, [evaluate], [gradient_wrt_probs], the three term functions
    [CDF_wrt_prob], [moment_wrt_prob], [corr_wrt_prob] and the grid builder
    [generate_cdf_grids].

    - Numbers are an abstract type [F] with the operations the code uses
      ([Scalar]); no algebraic law is assumed unless a theorem lists it, so
      a theorem without such a hypothesis holds for every interpretation of
      the operations.  Rounding and the order in which NumPy's [sum]
      associates are not modelled: [np_sum] adds from left to right,
      starting from zero.
    - A two-dimensional NumPy array is its shape and its row-major buffer
      ([ndarray2]); a one-dimensional array is a list.
    - A Python exception is a value of [res].
    - The SROM model and the target random vector are collaborators that
      the file under study only calls; they are interfaces ([SROMModel],
      [TargetRV]). *)

From Stdlib Require Import String Ascii.
From Stdlib Require Import List Arith Lia Bool.
From Stdlib Require Import ZArith QArith Qcanon Field.
From Corelib Require PrimFloat.
Import ListNotations.

Close Scope Q_scope.
Close Scope Qc_scope.
Open Scope nat_scope.

(** ** Exceptions *)

Inductive exn : Type :=
| ValueError (msg : string)
| IndexError.

Inductive res (A : Type) : Type :=
| Ok (a : A)
| Raise (e : exn).

Arguments Ok {A} a.
Arguments Raise {A} e.

Definition bind {A B : Type} (m : res A) (k : A -> res B) : res B :=
  match m with
  | Ok a => k a
  | Raise e => Raise e
  end.

Notation "x <- m ;; k" := (bind m (fun x => k))
  (at level 61, m at next level, right associativity).

(** [for x in l: ...] collecting one value per iteration. *)
Fixpoint mapM {A B : Type} (f : A -> res B) (l : list A) : res (list B) :=
  match l with
  | [] => Ok []
  | x :: l' => y <- f x ;; ys <- mapM f l' ;; Ok (y :: ys)
  end.

(** [for x in l: acc = f acc x]. *)
Fixpoint foldM {A B : Type} (f : B -> A -> res B) (l : list A) (b : B) : res B :=
  match l with
  | [] => Ok b
  | x :: l' => b' <- f b x ;; foldM f l' b'
  end.

(** [l[i]] for [0 <= i]. *)
Definition lookup {A : Type} (l : list A) (i : nat) : res A :=
  match nth_error l i with
  | Some x => Ok x
  | None => Raise IndexError
  end.

(** ** Numbers *)

Class Scalar (F : Type) : Type := {
  fzero : F;
  fone : F;
  fadd : F -> F -> F;
  fsub : F -> F -> F;
  fmul : F -> F -> F;
  fdiv : F -> F -> F;
  fpow : F -> nat -> F;          (* x ** n *)
  fgtb : F -> F -> bool;         (* x > y *)
  fgeb : F -> F -> bool;         (* x >= y *)
  feqb : F -> F -> bool;         (* x == y *)
  of_nat : nat -> F              (* the number n *)
}.

(** ** NumPy arrays *)

Record ndarray2 (F : Type) : Type := mk2 {
  nrows : nat;
  ncols : nat;
  flat : list F
}.

Arguments mk2 {F} nrows ncols flat.
Arguments nrows {F} n.
Arguments ncols {F} n.
Arguments flat {F} n.

Section NumPy.
Context {F : Type} `{Scalar F}.

Definition has_shape (m : ndarray2 F) (r c : nat) : Prop :=
  nrows m = r /\ ncols m = c /\ length (flat m) = r * c.

(** The entry at row [r] and column [c] of the buffer. *)
Definition at2 (m : ndarray2 F) (r c : nat) : F :=
  nth (r * ncols m + c) (flat m) fzero.

Definition tabulate2 (r c : nat) (f : nat -> nat -> F) : ndarray2 F :=
  mk2 r c (flat_map (fun i => map (f i) (seq 0 c)) (seq 0 r)).

Definition np_zeros (n : nat) : list F := repeat fzero n.
Definition np_ones (n : nat) : list F := repeat fone n.
Definition np_zeros2 (r c : nat) : ndarray2 F := mk2 r c (repeat fzero (r * c)).

Definition np_sum (l : list F) : F := fold_left fadd l fzero.

(** Broadcasting of one extent against another. *)
Definition bdim (a b : nat) : res nat :=
  if a =? b then Ok a
  else if a =? 1 then Ok b
  else if b =? 1 then Ok a
  else Raise (ValueError "operands could not be broadcast together"%string).

Definition bidx (n i : nat) : nat := if n =? 1 then 0 else i.

(** [op(u, v)] elementwise on one-dimensional arrays. *)
Definition broadcast1 (op : F -> F -> F) (u v : list F) : res (list F) :=
  n <- bdim (length u) (length v) ;;
  Ok (map (fun i => op (nth (bidx (length u) i) u fzero)
                       (nth (bidx (length v) i) v fzero)) (seq 0 n)).

(** [op(a, b)] elementwise on two-dimensional arrays. *)
Definition broadcast2 (op : F -> F -> F) (a b : ndarray2 F) : res (ndarray2 F) :=
  r <- bdim (nrows a) (nrows b) ;;
  c <- bdim (ncols a) (ncols b) ;;
  Ok (tabulate2 r c (fun i j =>
        op (at2 a (bidx (nrows a) i) (bidx (ncols a) j))
           (at2 b (bidx (nrows b) i) (bidx (ncols b) j)))).

Definition map2d (f : F -> F) (m : ndarray2 F) : ndarray2 F :=
  mk2 (nrows m) (ncols m) (map f (flat m)).

(** [w * v] for a number [w]. *)
Definition scale (w : F) (v : list F) : list F := map (fmul w) v.

(** [m[r, :]] *)
Definition row (m : ndarray2 F) (r : nat) : res (list F) :=
  if r <? nrows m
  then Ok (firstn (ncols m) (skipn (r * ncols m) (flat m)))
  else Raise IndexError.

(** [m[:, c]] *)
Definition col (m : ndarray2 F) (c : nat) : res (list F) :=
  if c <? ncols m
  then Ok (map (fun r => at2 m r c) (seq 0 (nrows m)))
  else Raise IndexError.

(** [m[r, c]] *)
Definition get2 (m : ndarray2 F) (r c : nat) : res F :=
  if (r <? nrows m) && (c <? ncols m) then Ok (at2 m r c) else Raise IndexError.

(** [m[mask, c]] for a boolean [mask] over the rows. *)
Definition mask_col (m : ndarray2 F) (mask : list bool) (c : nat) : res (list F) :=
  if negb (length mask =? nrows m) then Raise IndexError
  else
    column <- col m c ;;
    Ok (map snd (filter fst (combine mask column))).

(** [m[:, c] = v] *)
Definition set_col (m : ndarray2 F) (c : nat) (v : list F) : res (ndarray2 F) :=
  if c <? ncols m then
    if (length v =? nrows m) || (length v =? 1) then
      Ok (tabulate2 (nrows m) (ncols m) (fun r j =>
            if j =? c then nth (bidx (length v) r) v fzero else at2 m r j))
    else Raise (ValueError "could not broadcast input array"%string)
  else Raise IndexError.

(** [np.tile(v, n)] *)
Definition np_tile (v : list F) (n : nat) : list F := concat (repeat v n).

(** [l.reshape(r, c)] *)
Definition reshape (l : list F) (r c : nat) : res (ndarray2 F) :=
  if length l =? r * c then Ok (mk2 r c l)
  else Raise (ValueError "cannot reshape array"%string).

(** [np.sum(m, axis=1)] *)
Definition sum_axis1 (m : ndarray2 F) : list F :=
  map (fun r => np_sum (firstn (ncols m) (skipn (r * ncols m) (flat m))))
      (seq 0 (nrows m)).

(** [grad += v] *)
Definition iadd (grad v : list F) : res (list F) :=
  if (length v =? length grad) || (length v =? 1) then
    Ok (map (fun i => fadd (nth i grad fzero) (nth (bidx (length v) i) v fzero))
            (seq 0 (length grad)))
  else Raise (ValueError "operands could not be broadcast together"%string).

Definition set_last (l : list F) (x : F) : list F :=
  match l with
  | [] => []
  | _ => removelast l ++ [x]
  end.

(** [np.linspace(start, stop, num)], end point included: NumPy computes
    [arange(num) * step + start] with [step = (stop - start) / (num - 1)]
    and then stores [stop] in the last position when [num > 1]. *)
Definition np_linspace (start stop : F) (num : nat) : list F :=
  let div := num - 1 in
  let y := map of_nat (seq 0 num) in
  let delta := fsub stop start in
  let y :=
    if 0 <? div then
      let step := fdiv delta (of_nat div) in
      if feqb step fzero
      then map (fun v => fmul (fdiv v (of_nat div)) delta) y
      else map (fun v => fmul v step) y
    else map (fun v => fmul v delta) y in
  let y := map (fun v => fadd v start) y in
  if 1 <? num then set_last y stop else y.

End NumPy.

(** ** Strings *)

(** A string is the UTF-8 encoding of a Python [str]. *)

(** [str.upper] on an ASCII character. *)
Definition upper_ascii (c : ascii) : ascii :=
  let n := nat_of_ascii c in
  if (97 <=? n) && (n <=? 122) then ascii_of_nat (n - 32) else c.

(** The characters outside ASCII whose upper-case form is an ASCII string
    are U+00DF (to SS), U+0131 (to I), U+017F (to S) and the ligatures
    U+FB00 to U+FB06 (to FF, FI, FL, FFI, FFL, ST, ST): here by the two or
    three bytes of their encodings. *)
Definition upper_special2 (c1 c2 : ascii) : option string :=
  let n1 := nat_of_ascii c1 in
  let n2 := nat_of_ascii c2 in
  if (n1 =? 195) && (n2 =? 159) then Some "SS"%string
  else if (n1 =? 196) && (n2 =? 177) then Some "I"%string
  else if (n1 =? 197) && (n2 =? 191) then Some "S"%string
  else None.

Definition upper_special3 (c1 c2 c3 : ascii) : option string :=
  let n3 := nat_of_ascii c3 in
  if (nat_of_ascii c1 =? 239) && (nat_of_ascii c2 =? 172) then
    if n3 =? 128 then Some "FF"%string
    else if n3 =? 129 then Some "FI"%string
    else if n3 =? 130 then Some "FL"%string
    else if n3 =? 131 then Some "FFI"%string
    else if n3 =? 132 then Some "FFL"%string
    else if (n3 =? 133) || (n3 =? 134) then Some "ST"%string
    else None
  else None.

(** [str.upper]: each character is replaced by its upper-case form.  The
    result is exact for every string whose upper-case form is ASCII; the
    bytes of any other character are kept, so that the result is not
    ASCII, as in Python, and compares with an ASCII string as in Python. *)
Fixpoint upper (s : string) : string :=
  match s with
  | EmptyString => EmptyString
  | String c1 r1 =>
      match r1 with
      | EmptyString => String (upper_ascii c1) EmptyString
      | String c2 r2 =>
          match upper_special2 c1 c2 with
          | Some u => (u ++ upper r2)%string
          | None =>
              match r2 with
              | EmptyString => String (upper_ascii c1) (upper r1)
              | String c3 r3 =>
                  match upper_special3 c1 c2 c3 with
                  | Some u => (u ++ upper r3)%string
                  | None => String (upper_ascii c1) (upper r1)
                  end
              end
          end
      end
  end.

(** [str.lower] on strings of ASCII characters. *)
Definition lower_ascii (c : ascii) : ascii :=
  let n := nat_of_ascii c in
  if (65 <=? n) && (n <=? 90) then ascii_of_nat (n + 32) else c.

Fixpoint lower (s : string) : string :=
  match s with
  | EmptyString => EmptyString
  | String c s' => String (lower_ascii c) (lower s')
  end.

(** A string of ASCII characters. *)
Fixpoint ascii_only (s : string) : bool :=
  match s with
  | EmptyString => true
  | String c s' => (nat_of_ascii c <? 128) && ascii_only s'
  end.

(** Two strings that differ at most in the case of their letters: their
    upper-case forms are the same. *)
Definition eq_ignore_case (s t : string) : bool := String.eqb (upper s) (upper t).

(** [s in l] *)
Definition str_in (s : string) (l : list string) : bool := existsb (String.eqb s) l.

(** ** The collaborators *)

(** The SROM model: the attribute [_size] and the four methods that
    [Gradient] calls.  [set_params] is the only one that changes the model;
    the three queries read it. *)
Class SROMModel (F Srom : Type) : Type := {
  srom_size : Srom -> nat;
  set_params : Srom -> ndarray2 F -> list F -> Srom;
  srom_compute_CDF : Srom -> ndarray2 F -> ndarray2 F;
  srom_compute_moments : Srom -> nat -> ndarray2 F;
  srom_compute_corr_mat : Srom -> ndarray2 F
}.

(** The target random vector: the attributes [_dim], [_mins], [_maxs] and
    the three queries. *)
Class TargetRV (F T : Type) : Type := {
  target_dim : T -> nat;
  target_mins : T -> list F;
  target_maxs : T -> list F;
  target_compute_CDF : T -> ndarray2 F -> ndarray2 F;
  target_compute_moments : T -> nat -> ndarray2 F;
  target_compute_corr_mat : T -> ndarray2 F
}.

(** ** The class [Gradient] *)

Section GradientClass.
Context {F : Type} `{Scalar F}.
Context {Srom : Type} `{SROMModel F Srom}.
Context {T : Type} `{TargetRV F T}.

Record Gradient : Type := mkGradient {
  _SROM : Srom;
  _target : T;
  _x_grid : ndarray2 F;
  _weights : list F;
  _metric : string;
  _max_moment : nat
}.

Definition set_SROM (g : Gradient) (s : Srom) : Gradient :=
  mkGradient s (_target g) (_x_grid g) (_weights g) (_metric g) (_max_moment g).

Definition set_metric (g : Gradient) (m : string) : Gradient :=
  mkGradient (_SROM g) (_target g) (_x_grid g) (_weights g) m (_max_moment g).

(** [generate_cdf_grids]: the grid starts as zeros and column [i] is then
    overwritten with [linspace(mins[i], maxs[i], cdf_grid_pts)]. *)
Definition generate_cdf_grids (target : T) (cdf_grid_pts : nat) : res (ndarray2 F) :=
  foldM (fun x_grid i =>
           lo <- lookup (target_mins target) i ;;
           hi <- lookup (target_maxs target) i ;;
           set_col x_grid i (np_linspace lo hi cdf_grid_pts))
        (seq 0 (target_dim target))
        (np_zeros2 cdf_grid_pts (target_dim target)).

Definition metrics : list string := ["MEAN"; "MAX"; "SSE"]%string.

(** [__init__]; [obj_weights = None] is the omitted argument. *)
Definition init (SROM : Srom) (targetRV : T) (obj_weights : option (list F))
           (error : string) (max_moment cdf_grid_pts : nat) : res Gradient :=
  x_grid <- generate_cdf_grids targetRV cdf_grid_pts ;;
  weights <- match obj_weights with
             | Some w =>
                 if negb (length w =? 3)
                 then Raise (ValueError "obj_weights must have length 3!"%string)
                 else Ok w
             | None => Ok (np_ones 3)
             end ;;
  if negb (str_in (upper error) metrics)
  then Raise (ValueError "error must be either 'mean','max', or 'sse'"%string)
  else Ok (mkGradient SROM targetRV x_grid weights (upper error) max_moment).

(** [(a - b) / b**2.0] *)
Definition rel_diffs (a b : ndarray2 F) : res (ndarray2 F) :=
  num <- broadcast2 fsub a b ;;
  broadcast2 fdiv num (map2d (fun x => fpow x 2) b).

Definition CDF_wrt_prob (self : Gradient) (samples : ndarray2 F) (probs : list F)
  : res (list F) :=
  let size := nrows samples in
  let dim := ncols samples in
  let srom_cdfs := srom_compute_CDF (_SROM self) (_x_grid self) in
  let target_cdfs := target_compute_CDF (_target self) (_x_grid self) in
  diffs <- rel_diffs srom_cdfs target_cdfs ;;
  mapM (fun srom_ind =>
          samples_k <- row samples srom_ind ;;
          foldM (fun grad_i i =>
                   grid_i <- col (_x_grid self) i ;;
                   s_ki <- lookup samples_k i ;;
                   let indz := map (fun x => fgeb x s_ki) grid_i in
                   picked <- mask_col diffs indz i ;;
                   Ok (fadd grad_i (np_sum picked)))
                (seq 0 dim) fzero)
       (seq 0 size).

Definition moment_wrt_prob (self : Gradient) (samples : ndarray2 F) (probs : list F)
  : res (list F) :=
  let size := nrows samples in
  let dim := ncols samples in
  let srom_moments := srom_compute_moments (_SROM self) (_max_moment self) in
  let target_moments := target_compute_moments (_target self) (_max_moment self) in
  diffs <- rel_diffs srom_moments target_moments ;;
  let samples_flat := flat samples in
  foldM (fun grad q =>
           let samples_q := map (fun x => fpow x (q + 1)) samples_flat in
           diffs_q <- row diffs q ;;
           let diffs_tiled := np_tile diffs_q size in
           diffs_samples_q <- broadcast1 fmul samples_q diffs_tiled ;;
           reshaped <- reshape diffs_samples_q size dim ;;
           iadd grad (sum_axis1 reshaped))
        (seq 0 (_max_moment self)) (np_zeros size).

Definition corr_wrt_prob (self : Gradient) (samples : ndarray2 F) (probs : list F)
  : res (list F) :=
  let size := nrows samples in
  let dim := ncols samples in
  if dim =? 1 then Ok (np_zeros size)
  else
    let srom_corr := srom_compute_corr_mat (_SROM self) in
    let target_corr := target_compute_corr_mat (_target self) in
    diffs <- rel_diffs srom_corr target_corr ;;
    mapM (fun srom_ind =>
            sample_k <- row samples srom_ind ;;
            foldM (fun grad_sum i =>
                     foldM (fun grad_sum j =>
                              d <- get2 diffs i j ;;
                              s_i <- lookup sample_k i ;;
                              s_j <- lookup sample_k j ;;
                              Ok (fadd grad_sum (fmul (fmul d s_i) s_j)))
                           (seq 0 dim) grad_sum)
                  (seq 0 dim) fzero)
         (seq 0 size).

Definition gradient_wrt_probs (self : Gradient) (samples : ndarray2 F) (probs : list F)
  : res (list F) :=
  let sromsize := srom_size (_SROM self) in
  w0 <- lookup (_weights self) 0 ;;
  cdf_grad <- (if fgtb w0 fzero then CDF_wrt_prob self samples probs
               else Ok (np_zeros sromsize)) ;;
  w1 <- lookup (_weights self) 1 ;;
  moment_grad <- (if fgtb w1 fzero then moment_wrt_prob self samples probs
                  else Ok (np_zeros sromsize)) ;;
  w2 <- lookup (_weights self) 2 ;;
  corr_grad <- (if fgtb w2 fzero then corr_wrt_prob self samples probs
                else Ok (np_zeros sromsize)) ;;
  partial <- broadcast1 fadd (scale w0 cdf_grad) (scale w1 moment_grad) ;;
  broadcast1 fadd partial (scale w2 corr_grad).

(** [evaluate]: the state after the call and the value returned. *)
Definition evaluate (self : Gradient) (samples : ndarray2 F) (probs : list F)
  : Gradient * res (list F) :=
  let self' := set_SROM self (set_params (_SROM self) samples probs) in
  (self', gradient_wrt_probs self' samples probs).

End GradientClass.

Arguments Gradient : clear implicits.

(** ** The vocabulary of the specification *)

Section Vocabulary.
Context {F : Type} `{Scalar F}.
Context {Srom : Type} `{SROMModel F Srom}.
Context {T : Type} `{TargetRV F T}.

(** The entry of [(a - b) / b^2] at row [i], column [j]. *)
Definition rel_diff_at (a b : ndarray2 F) (i j : nat) : F :=
  fdiv (fsub (at2 a i j) (at2 b i j)) (fpow (at2 b i j) 2).

(** Entry [k] of the CDF term as the specification states it: over the
    dimensions [i], the sum of [diff[g, i]] over the grid points [g] whose
    value in dimension [i] is at least the coordinate [i] of sample [k]. *)
Definition CDF_term_spec (self : Gradient F Srom T) (samples : ndarray2 F) (k : nat) : F :=
  let grid := _x_grid self in
  let srom_cdf := srom_compute_CDF (_SROM self) grid in
  let target_cdf := target_compute_CDF (_target self) grid in
  np_sum (map (fun i =>
                 np_sum (map (fun g => rel_diff_at srom_cdf target_cdf g i)
                             (filter (fun g => fgeb (at2 grid g i) (at2 samples k i))
                                     (seq 0 (nrows grid)))))
              (seq 0 (ncols samples))).

(** The nested-loop reference of the specification: for each sample [k],
    for each moment order [q] from 1 to [max_moment], the coordinates of
    the sample raised to the power [q], times the row of [diff] for the
    order [q], summed across the dimensions and accumulated. *)
Definition moment_wrt_prob_naive (self : Gradient F Srom T) (samples : ndarray2 F) : list F :=
  let srom_moment := srom_compute_moments (_SROM self) (_max_moment self) in
  let target_moment := target_compute_moments (_target self) (_max_moment self) in
  map (fun k =>
         np_sum (map (fun q =>
                        np_sum (map (fun i =>
                                       fmul (fpow (at2 samples k i) q)
                                            (rel_diff_at srom_moment target_moment (q - 1) i))
                                    (seq 0 (ncols samples))))
                     (seq 1 (_max_moment self))))
      (seq 0 (nrows samples)).

(** Entry [k] of the correlation term as the specification states it: the
    bilinear form, the sum over the pairs [(i, j)] of
    [diff[i, j] * sample_k[i] * sample_k[j]]. *)
Definition corr_term_spec (self : Gradient F Srom T) (samples : ndarray2 F) (k : nat) : F :=
  let srom_corr := srom_compute_corr_mat (_SROM self) in
  let target_corr := target_compute_corr_mat (_target self) in
  let dims := seq 0 (ncols samples) in
  np_sum (map (fun ij =>
                 fmul (fmul (rel_diff_at srom_corr target_corr (fst ij) (snd ij))
                            (at2 samples k (fst ij)))
                      (at2 samples k (snd ij)))
              (list_prod dims dims)).

(** [w0*c + w1*m + w2*r], entry by entry. *)
Definition weighted_sum (w0 w1 w2 : F) (c m r : list F) : list F :=
  map (fun k => fadd (fadd (fmul w0 (nth k c fzero)) (fmul w1 (nth k m fzero)))
                     (fmul w2 (nth k r fzero)))
      (seq 0 (length c)).

(** The vector that enters the sum for a term of weight [w]. *)
Definition guarded (w : F) (term : list F) (sromsize : nat) : list F :=
  if fgtb w fzero then term else np_zeros sromsize.

(** The three term functions, by position in [obj_weights]. *)
Definition term_fun (t : nat) : Gradient F Srom T -> ndarray2 F -> list F -> res (list F) :=
  match t with
  | 0 => CDF_wrt_prob
  | 1 => moment_wrt_prob
  | _ => corr_wrt_prob
  end.

(** The target has a lower and an upper bound for each dimension. *)
Definition bounded (target : T) : Prop :=
  target_dim target <= length (target_mins target) /\
  target_dim target <= length (target_maxs target).

(** What the specification says of a grid column for the bounds
    [[a, b]] and [N] points. *)
Definition uniform_column (column : list F) (a b : F) (N : nat) : Prop :=
  length column = N /\
  nth 0 column fzero = a /\
  nth (N - 1) column fzero = b /\
  forall j, j + 1 < N ->
    fsub (nth (j + 1) column fzero) (nth j column fzero)
    = fdiv (fsub b a) (of_nat (N - 1)).

End Vocabulary.


(** The laws of exact arithmetic: the operations form a field in which the
    numbers [1, 2, 3, ...] are not zero. *)
Class ExactField (F : Type) `{Scalar F} : Prop := {
  exact_field :
    field_theory fzero fone fadd fmul fsub (fun x => fsub fzero x)
                 fdiv (fun x => fdiv fone x) (@eq F);
  of_nat_O : of_nat 0 = fzero;
  of_nat_S : forall n, of_nat (S n) = fadd (of_nat n) fone;
  of_nat_S_nonzero : forall n, of_nat (S n) <> fzero
}.

(** ** Exact rational numbers and table-driven collaborators *)

Module Rational.

Definition q (z : Z) : Qc := Q2Qc (inject_Z z).

#[export] Instance Qc_Scalar : Scalar Qc := {|
  fzero := q 0;
  fone := q 1;
  fadd := Qcplus;
  fsub := Qcminus;
  fmul := Qcmult;
  fdiv := Qcdiv;
  fpow := Qcpower;
  fgtb := fun x y => negb (Qle_bool x y);
  fgeb := fun x y => Qle_bool y x;
  feqb := Qc_eq_bool;
  of_nat := fun n => q (Z.of_nat n)
|}.

(** The numbers of a result, without the proofs that they are in lowest
    terms. *)
Definition numbers (r : res (list Qc)) : res (list Q) :=
  match r with
  | Ok v => Ok (map this v)
  | Raise e => Raise e
  end.

End Rational.

(** A SROM model and a target whose statistics are stored tables. *)
Record TableSROM (F : Type) : Type := mkTableSROM {
  ts_size : nat;
  ts_samples : ndarray2 F;
  ts_probs : list F;
  ts_CDF : ndarray2 F;
  ts_moments : ndarray2 F;
  ts_corr : ndarray2 F
}.

Arguments mkTableSROM {F}.
Arguments ts_size {F}.
Arguments ts_samples {F}.
Arguments ts_probs {F}.
Arguments ts_CDF {F}.
Arguments ts_moments {F}.
Arguments ts_corr {F}.

#[export] Instance TableSROM_model (F : Type) : SROMModel F (TableSROM F) := {|
  srom_size := ts_size;
  set_params := fun s samples probs =>
    mkTableSROM (nrows samples) samples probs (ts_CDF s) (ts_moments s) (ts_corr s);
  srom_compute_CDF := fun s _ => ts_CDF s;
  srom_compute_moments := fun s _ => ts_moments s;
  srom_compute_corr_mat := ts_corr
|}.

Record TableTarget (F : Type) : Type := mkTableTarget {
  tt_dim : nat;
  tt_mins : list F;
  tt_maxs : list F;
  tt_CDF : ndarray2 F;
  tt_moments : ndarray2 F;
  tt_corr : ndarray2 F
}.

Arguments mkTableTarget {F}.
Arguments tt_dim {F}.
Arguments tt_mins {F}.
Arguments tt_maxs {F}.
Arguments tt_CDF {F}.
Arguments tt_moments {F}.
Arguments tt_corr {F}.

#[export] Instance TableTarget_model (F : Type) : TargetRV F (TableTarget F) := {|
  target_dim := tt_dim;
  target_mins := tt_mins;
  target_maxs := tt_maxs;
  target_compute_CDF := fun t _ => tt_CDF t;
  target_compute_moments := fun t _ => tt_moments t;
  target_compute_corr_mat := tt_corr
|}.

Module Example.
Import Rational.

Definition const2 (r c : nat) (z : Z) : ndarray2 Qc := mk2 r c (repeat (q z) (r * c)).

(** Two samples in two dimensions, [(0, 1)] and [(1, 0)]. *)
Definition samples : ndarray2 Qc := mk2 2 2 [q 0; q 1; q 1; q 0].
Definition probs : list Qc := [Q2Qc (1 # 2); Q2Qc (1 # 2)].

(** The grid of two points per dimension on [[0, 1] x [0, 1]]. *)
Definition x_grid : ndarray2 Qc := mk2 2 2 [q 0; q 0; q 1; q 1].

Definition srom : TableSROM Qc :=
  mkTableSROM 2 samples probs (const2 2 2 2) (const2 1 2 3) (const2 2 2 2).

Definition target : TableTarget Qc :=
  mkTableTarget 2 [q 0; q 0] [q 1; q 1] (const2 2 2 1) (const2 1 2 1) (const2 2 2 1).

Definition evaluator (weights : list Qc) : Gradient Qc (TableSROM Qc) (TableTarget Qc) :=
  mkGradient srom target x_grid weights "MEAN" 1.

(** The same evaluator with other correlation matrices, the target's
    being zero. *)
Definition srom' : TableSROM Qc :=
  mkTableSROM 2 samples probs (const2 2 2 2) (const2 1 2 3) (const2 2 2 5).

Definition target' : TableTarget Qc :=
  mkTableTarget 2 [q 0; q 0] [q 1; q 1] (const2 2 2 1) (const2 1 2 1) (const2 2 2 0).

Definition evaluator' (weights : list Qc) : Gradient Qc (TableSROM Qc) (TableTarget Qc) :=
  mkGradient srom' target' x_grid weights "MEAN" 1.

Definition ones3 : list Qc := [q 1; q 1; q 1].

(** A single sample in one dimension. *)
Definition samples1 : ndarray2 Qc := mk2 1 1 [q 3].

(** A target on [[0, 1]] in one dimension. *)
Definition target1 : TableTarget Qc :=
  mkTableTarget 1 [q 0] [q 1] (const2 1 1 1) (const2 1 1 1) (const2 1 1 1).

End Example.

(** ** Further vocabulary *)

Section MoreVocabulary.
Context {F : Type} `{Scalar F}.

(** The sum over the dimensions that one moment order adds to the entry of
    sample [k]. *)
Definition moment_row_sum (samples diffs : ndarray2 F) (dim k q : nat) : F :=
  np_sum (map (fun i => fmul (fpow (at2 samples k i) (q + 1)) (at2 diffs q i))
              (seq 0 dim)).

End MoreVocabulary.

(** ** Further inputs for the edge cases *)

Module Edge.
Import Rational Example.

(** One sample whose coordinates compare with the grid as the first sample
    of [samples] does, and one sample beyond the grid. *)
Definition samples_left : ndarray2 Qc := mk2 1 2 [q (-5); q 1].
Definition samples_far : ndarray2 Qc := mk2 1 2 [q 7; q 7].

(** The first sample of [samples] alone. *)
Definition samples_first : ndarray2 Qc := mk2 1 2 [q 0; q 1].

(** Two samples in three dimensions. *)
Definition samples_wide : ndarray2 Qc := mk2 2 3 [q 0; q 1; q 2; q 1; q 0; q 2].

(** The evaluator of the examples with another number of moment orders. *)
Definition evaluator_orders (max_moment : nat)
  : Gradient Qc (TableSROM Qc) (TableTarget Qc) :=
  mkGradient srom target x_grid ones3 "MEAN" max_moment.

(** The evaluator of the examples with another [_size] of the SROM. *)
Definition srom_sized (size : nat) : TableSROM Qc :=
  mkTableSROM size samples probs (const2 2 2 2) (const2 1 2 3) (const2 2 2 2).

Definition evaluator_sized (size : nat) (weights : list Qc)
  : Gradient Qc (TableSROM Qc) (TableTarget Qc) :=
  mkGradient (srom_sized size) target x_grid weights "MEAN" 1.

(** The spellings of "sse" with U+017F (long s) for the first letter, and
    with U+00DF (sharp s) for the first two, as UTF-8. *)
Definition long_s_se : string := String (ascii_of_nat 197) (String (ascii_of_nat 191) "se").
Definition sharp_s_e : string := String (ascii_of_nat 195) (String (ascii_of_nat 159) "e").

(** A target in two dimensions with a single lower bound. *)
Definition target_short : TableTarget Qc :=
  mkTableTarget 2 [q 0] [q 1; q 1] (const2 2 2 1) (const2 1 2 1) (const2 2 2 1).

End Edge.

(** ** IEEE binary64 numbers *)

(** The numbers of NumPy's [float64], with their infinities and NaN.
    Powers and the numbers [0, 1, 2, ...] are by repeated multiplication
    and addition, exact for the exponents 1 and 2 that the examples use. *)
Module Binary64.
Import PrimFloat.

#[export] Instance float_Scalar : Scalar float := {|
  fzero := 0%float;
  fone := 1%float;
  fadd := PrimFloat.add;
  fsub := PrimFloat.sub;
  fmul := PrimFloat.mul;
  fdiv := PrimFloat.div;
  fpow := fun x n => Nat.iter n (fun acc => PrimFloat.mul acc x) 1%float;
  fgtb := fun x y => PrimFloat.ltb y x;
  fgeb := fun x y => PrimFloat.leb y x;
  feqb := PrimFloat.eqb;
  of_nat := fun n => Nat.iter n (fun acc => PrimFloat.add acc 1%float) 0%float
|}.

(** The first entry of a returned vector is the number [x]. *)
Definition first_is (x : float) (r : res (list float)) : bool :=
  match r with
  | Ok (y :: _) => PrimFloat.eqb y x
  | _ => false
  end.

End Binary64.

(** The evaluator of the examples in binary64, once with a target whose
    dimensions are uncorrelated (correlation matrix the identity) and once
    with a target correlation matrix of ones. *)
Module FloatExample.
Import PrimFloat Binary64.

Definition const2 (r c : nat) (x : float) : ndarray2 float := mk2 r c (repeat x (r * c)).

Definition samples : ndarray2 float := mk2 2 2 [0; 1; 1; 0]%float.
Definition probs : list float := [0.5; 0.5]%float.
Definition x_grid : ndarray2 float := mk2 2 2 [0; 0; 1; 1]%float.

Definition srom : TableSROM float :=
  mkTableSROM 2 samples probs (const2 2 2 2) (const2 1 2 3) (const2 2 2 5).

Definition target_uncorrelated : TableTarget float :=
  mkTableTarget 2 [0; 0]%float [1; 1]%float (const2 2 2 1) (const2 1 2 1)
                (mk2 2 2 [1; 0; 0; 1]%float).

Definition target_correlated : TableTarget float :=
  mkTableTarget 2 [0; 0]%float [1; 1]%float (const2 2 2 1) (const2 1 2 1) (const2 2 2 1).

Definition evaluator (target : TableTarget float) (weights : list float)
  : Gradient float (TableSROM float) (TableTarget float) :=
  mkGradient srom target x_grid weights "MEAN" 1.

End FloatExample.

(** ** Loops that do not raise *)

Lemma mapM_pure {A B : Type} (f : A -> res B) (g : A -> B) (l : list A) :
  (forall x, In x l -> f x = Ok (g x)) -> mapM f l = Ok (map g l).
Proof.
  induction l as [|x l IH]; intros Hf; simpl.
  - reflexivity.
  - rewrite (Hf x (or_introl eq_refl)). simpl.
    rewrite IH.
    + reflexivity.
    + intros y Hy. apply Hf. now right.
Qed.

Lemma foldM_pure {A B : Type} (f : B -> A -> res B) (h : B -> A -> B) (l : list A) :
  (forall b x, In x l -> f b x = Ok (h b x)) ->
  forall b, foldM f l b = Ok (fold_left h l b).
Proof.
  induction l as [|x l IH]; intros Hf b; simpl.
  - reflexivity.
  - rewrite (Hf b x (or_introl eq_refl)). simpl.
    apply IH. intros b' y Hy. apply Hf. now right.
Qed.

Lemma mapM_length {A B : Type} (f : A -> res B) (l : list A) (v : list B) :
  mapM f l = Ok v -> length v = length l.
Proof.
  revert v. induction l as [|x l IH]; intros v; simpl.
  - intros [= <-]. reflexivity.
  - destruct (f x) as [y|e]; simpl; [|discriminate].
    destruct (mapM f l) as [ys|e]; simpl; [|discriminate].
    intros [= <-]. simpl. f_equal. now apply IH.
Qed.

Lemma fold_left_map_add {A B : Type} (op : B -> B -> B) (f : A -> B) (l : list A) (b : B) :
  fold_left (fun acc x => op acc (f x)) l b = fold_left op (map f l) b.
Proof.
  revert b. induction l as [|x l IH]; intros b; simpl; [reflexivity|apply IH].
Qed.

Lemma lookup_nth {A : Type} (l : list A) (i : nat) (d : A) :
  i < length l -> lookup l i = Ok (nth i l d).
Proof.
  intros Hi. unfold lookup.
  rewrite (nth_error_nth' l d Hi). reflexivity.
Qed.

Lemma lookup_in_range {A : Type} (l : list A) (i : nat) (x : A) :
  lookup l i = Ok x -> i < length l.
Proof.
  unfold lookup. destruct (nth_error l i) eqn:E; [|discriminate].
  intros _. apply nth_error_Some. congruence.
Qed.

(** ** Lists of indices *)

Lemma mask_select {A B : Type} (p : A -> bool) (f : A -> B) (l : list A) :
  map snd (filter fst (combine (map p l) (map f l))) = map f (filter p l).
Proof.
  induction l as [|x l IH]; simpl; [reflexivity|].
  destruct (p x); simpl; now rewrite IH.
Qed.

Lemma firstn_skipn_nth {A : Type} (l : list A) (d : A) (a n : nat) :
  a + n <= length l ->
  firstn n (skipn a l) = map (fun i => nth (a + i) l d) (seq 0 n).
Proof.
  revert l. induction a as [|a IH]; intros l Hle; simpl.
  - revert l Hle. induction n as [|n IHn]; intros l Hle; simpl; [reflexivity|].
    destruct l as [|x l]; simpl in *; [lia|].
    f_equal. rewrite <- seq_shift, map_map. apply IHn. lia.
  - destruct l as [|x l]; simpl in *; [lia|]. apply IH. lia.
Qed.

(** ** Arrays: shapes and entries *)

Section ArrayFacts.
Context {F : Type} `{Scalar F}.

Lemma bidx_lt (n i : nat) : i < n -> bidx n i = i.
Proof.
  unfold bidx. intros Hi. destruct (Nat.eqb_spec n 1); [lia|reflexivity].
Qed.

Lemma bdim_same (n : nat) : bdim n n = Ok n.
Proof. unfold bdim. now rewrite Nat.eqb_refl. Qed.

Lemma length_flat_map_const {A : Type} (g : A -> list F) (c : nat) (l : list A) :
  (forall x, length (g x) = c) -> length (flat_map g l) = length l * c.
Proof.
  intros Hg. induction l as [|x l IH]; simpl; [reflexivity|].
  rewrite length_app, Hg, IH. reflexivity.
Qed.

Lemma nth_flat_map_seq (g : nat -> list F) (c : nat) (d : F) :
  (forall i, length (g i) = c) ->
  forall r s i j, i < r -> j < c ->
    nth (i * c + j) (flat_map g (seq s r)) d = nth j (g (s + i)) d.
Proof.
  intros Hg. induction r as [|r IH]; intros s i j Hi Hj; [lia|].
  simpl. destruct i as [|i].
  - simpl. rewrite app_nth1 by (rewrite Hg; exact Hj).
    now rewrite Nat.add_0_r.
  - rewrite app_nth2 by (rewrite Hg; simpl; lia).
    rewrite Hg. replace (S i * c + j - c) with (i * c + j) by (simpl; lia).
    rewrite IH by lia. f_equal. f_equal. lia.
Qed.

Lemma tabulate2_shape (r c : nat) (f : nat -> nat -> F) :
  has_shape (tabulate2 r c f) r c.
Proof.
  unfold has_shape, tabulate2. simpl. repeat split.
  rewrite (length_flat_map_const _ c).
  - now rewrite length_seq.
  - intros i. now rewrite length_map, length_seq.
Qed.

Lemma at2_tabulate2 (r c : nat) (f : nat -> nat -> F) (i j : nat) :
  i < r -> j < c -> at2 (tabulate2 r c f) i j = f i j.
Proof.
  intros Hi Hj. unfold at2, tabulate2. simpl.
  rewrite (nth_flat_map_seq _ c) by
    (auto; intros; now rewrite length_map, length_seq).
  simpl.
  rewrite (nth_indep _ fzero (f i 0)) by (now rewrite length_map, length_seq).
  rewrite (map_nth (f i) (seq 0 c) 0 j).
  now rewrite seq_nth.
Qed.

Lemma tabulate2_ext (r c : nat) (f g : nat -> nat -> F) :
  (forall i j, i < r -> j < c -> f i j = g i j) ->
  tabulate2 r c f = tabulate2 r c g.
Proof.
  intros Hfg. unfold tabulate2. f_equal.
  rewrite !flat_map_concat_map. f_equal.
  apply map_ext_in. intros i Hi. apply in_seq in Hi.
  apply map_ext_in. intros j Hj. apply in_seq in Hj.
  apply Hfg; lia.
Qed.

Lemma at2_map2d (f : F -> F) (m : ndarray2 F) (r c i j : nat) :
  has_shape m r c -> i < r -> j < c ->
  at2 (map2d f m) i j = f (at2 m i j).
Proof.
  intros (Hr & Hc & Hlen) Hi Hj. unfold at2, map2d. simpl.
  rewrite (nth_indep _ fzero (f fzero)).
  - apply map_nth.
  - rewrite length_map, Hlen, Hc. nia.
Qed.

Lemma broadcast2_same (op : F -> F -> F) (a b : ndarray2 F) (r c : nat) :
  has_shape a r c -> has_shape b r c ->
  broadcast2 op a b = Ok (tabulate2 r c (fun i j => op (at2 a i j) (at2 b i j))).
Proof.
  intros (Har & Hac & _) (Hbr & Hbc & _). unfold broadcast2.
  rewrite Har, Hbr, Hac, Hbc, !bdim_same. simpl. f_equal.
  apply tabulate2_ext. intros i j Hi Hj.
  now rewrite !bidx_lt.
Qed.

Lemma broadcast1_same (op : F -> F -> F) (u v : list F) :
  length u = length v ->
  broadcast1 op u v =
  Ok (map (fun i => op (nth i u fzero) (nth i v fzero)) (seq 0 (length u))).
Proof.
  intros Hlen. unfold broadcast1. rewrite <- Hlen, bdim_same. simpl. f_equal.
  apply map_ext_in. intros i Hi. apply in_seq in Hi.
  now rewrite !bidx_lt by lia.
Qed.

Lemma row_entries (m : ndarray2 F) (r c k : nat) :
  has_shape m r c -> k < r ->
  row m k = Ok (map (fun i => at2 m k i) (seq 0 c)).
Proof.
  intros (Hr & Hc & Hlen) Hk. unfold row, at2.
  rewrite Hr, Hc. destruct (Nat.ltb_spec k r); [|lia].
  f_equal. apply firstn_skipn_nth. rewrite Hlen. nia.
Qed.

Lemma col_entries (m : ndarray2 F) (r c i : nat) :
  has_shape m r c -> i < c ->
  col m i = Ok (map (fun k => at2 m k i) (seq 0 r)).
Proof.
  intros (Hr & Hc & _) Hi. unfold col.
  rewrite Hr, Hc. destruct (Nat.ltb_spec i c); [reflexivity|lia].
Qed.

Lemma get2_entry (m : ndarray2 F) (r c i j : nat) :
  has_shape m r c -> i < r -> j < c -> get2 m i j = Ok (at2 m i j).
Proof.
  intros (Hr & Hc & _) Hi Hj. unfold get2. rewrite Hr, Hc.
  destruct (Nat.ltb_spec i r); [|lia].
  destruct (Nat.ltb_spec j c); [reflexivity|lia].
Qed.

Lemma nth_map_seq (f : nat -> F) (n k : nat) :
  k < n -> nth k (map f (seq 0 n)) fzero = f k.
Proof.
  intros Hk.
  rewrite (nth_indep _ fzero (f 0)) by (now rewrite length_map, length_seq).
  rewrite (map_nth f (seq 0 n) 0 k). now rewrite seq_nth.
Qed.

Lemma lookup_map_seq (f : nat -> F) (n k : nat) :
  k < n -> lookup (map f (seq 0 n)) k = Ok (f k).
Proof.
  intros Hk. rewrite (lookup_nth _ _ fzero) by (now rewrite length_map, length_seq).
  now rewrite nth_map_seq.
Qed.

End ArrayFacts.

(** ** The three terms *)

Section Terms.
Context {F : Type} `{Scalar F}.
Context {Srom : Type} `{SROMModel F Srom}.
Context {T : Type} `{TargetRV F T}.

Lemma map2d_shape (f : F -> F) (m : ndarray2 F) (r c : nat) :
  has_shape m r c -> has_shape (map2d f m) r c.
Proof.
  intros (Hr & Hc & Hlen). unfold has_shape, map2d. simpl.
  now rewrite length_map.
Qed.

Lemma rel_diffs_same (a b : ndarray2 F) (r c : nat) :
  has_shape a r c -> has_shape b r c ->
  rel_diffs a b = Ok (tabulate2 r c (rel_diff_at a b)).
Proof.
  intros Ha Hb. unfold rel_diffs.
  rewrite (broadcast2_same fsub a b r c Ha Hb). simpl.
  rewrite (broadcast2_same fdiv _ _ r c (tabulate2_shape _ _ _)
             (map2d_shape _ _ _ _ Hb)).
  f_equal. apply tabulate2_ext. intros i j Hi Hj.
  rewrite at2_tabulate2 by assumption.
  rewrite (at2_map2d _ b r c) by assumption.
  reflexivity.
Qed.

(** *** The CDF term *)

(** C2: on a [size x dim] sample matrix, with the grid and both CDF
    matrices of shape [grid_pts x dim], [CDF_wrt_prob] returns the vector
    whose entry [k] is the sum over the dimensions [i] of the sum of
    [diff[g, i]] over exactly the grid points [g] with
    [grid[g, i] >= samples[k, i]], where
    [diff = (srom_cdf - target_cdf) / target_cdf^2] elementwise. *)
Theorem CDF_wrt_prob_indicator_sums
    (self : Gradient F Srom T) (samples : ndarray2 F) (probs : list F)
    (size dim grid_pts : nat) :
  has_shape samples size dim ->
  has_shape (_x_grid self) grid_pts dim ->
  has_shape (srom_compute_CDF (_SROM self) (_x_grid self)) grid_pts dim ->
  has_shape (target_compute_CDF (_target self) (_x_grid self)) grid_pts dim ->
  CDF_wrt_prob self samples probs
  = Ok (map (CDF_term_spec self samples) (seq 0 size)).
Proof.
  intros Hs Hg Ha Hb. unfold CDF_wrt_prob.
  rewrite (rel_diffs_same _ _ grid_pts dim Ha Hb). simpl.
  destruct Hs as (Hsr & Hsc & Hsl).
  assert (Hs : has_shape samples size dim) by (repeat split; assumption).
  rewrite Hsr, Hsc.
  apply mapM_pure. intros k Hk. apply in_seq in Hk.
  rewrite (row_entries samples size dim k Hs) by lia. simpl.
  unfold CDF_term_spec. rewrite Hsc.
  destruct Hg as (Hgr & Hgc & Hgl).
  assert (Hg : has_shape (_x_grid self) grid_pts dim) by (repeat split; assumption).
  rewrite Hgr.
  rewrite (foldM_pure _
    (fun acc i => fadd acc
       (np_sum (map (fun g => rel_diff_at
                                (srom_compute_CDF (_SROM self) (_x_grid self))
                                (target_compute_CDF (_target self) (_x_grid self)) g i)
                    (filter (fun g => fgeb (at2 (_x_grid self) g i) (at2 samples k i))
                            (seq 0 grid_pts)))))).
  - f_equal. unfold np_sum at 2.
    now rewrite <- fold_left_map_add.
  - intros acc i Hi. apply in_seq in Hi.
    rewrite (col_entries _ grid_pts dim i Hg) by lia. simpl.
    rewrite lookup_map_seq by lia. simpl.
    unfold mask_col. simpl.
    rewrite !length_map, length_seq, Nat.eqb_refl. simpl.
    rewrite (col_entries _ grid_pts dim i (tabulate2_shape _ _ _)) by lia. simpl.
    rewrite map_map, mask_select.
    do 3 f_equal.
    apply map_ext_in. intros g Hin. apply filter_In in Hin as [Hin _].
    apply in_seq in Hin.
    apply at2_tabulate2; lia.
Qed.

(** *** The moment term *)

Lemma length_np_tile (v : list F) (n : nat) :
  length (np_tile v n) = n * length v.
Proof.
  unfold np_tile. induction n as [|n IH]; simpl; [reflexivity|].
  now rewrite length_app, IH.
Qed.

Lemma nth_np_tile (v : list F) (n k i : nat) (d : F) :
  k < n -> i < length v ->
  nth (k * length v + i) (np_tile v n) d = nth i v d.
Proof.
  unfold np_tile. revert k. induction n as [|n IH]; intros k Hk Hi; [lia|].
  simpl. destruct k as [|k].
  - simpl. now rewrite app_nth1.
  - rewrite app_nth2 by (simpl; lia).
    replace (S k * length v + i - length v) with (k * length v + i) by (simpl; lia).
    apply IH; lia.
Qed.

Lemma nth_np_zeros (n k : nat) : nth k (np_zeros n) fzero = fzero.
Proof.
  unfold np_zeros. revert k. induction n as [|n IH]; intros [|k]; simpl; auto.
Qed.

Lemma length_np_zeros (n : nat) : length (np_zeros n) = n.
Proof. apply repeat_length. Qed.

(** One pass of the loop over the moment orders: the flattened samples
    raised to the power [q + 1], times the tiled row [q] of [diff],
    reshaped and summed along the rows, added to [grad]. *)
Lemma moment_pass (samples diffs : ndarray2 F) (grad : list F)
      (size dim max_moment q : nat) :
  has_shape samples size dim -> has_shape diffs max_moment dim ->
  length grad = size -> q < max_moment ->
  (diffs_q <- row diffs q ;;
   diffs_samples_q <- broadcast1 fmul (map (fun x => fpow x (q + 1)) (flat samples))
                                 (np_tile diffs_q size) ;;
   reshaped <- reshape diffs_samples_q size dim ;;
   iadd grad (sum_axis1 reshaped))
  = Ok (map (fun k =>
               fadd (nth k grad fzero)
                    (np_sum (map (fun i => fmul (fpow (at2 samples k i) (q + 1))
                                                (at2 diffs q i))
                                 (seq 0 dim))))
            (seq 0 size)).
Proof.
  intros Hs Hd Hgrad Hq.
  rewrite (row_entries diffs max_moment dim q Hd Hq). simpl.
  set (diffs_q := map (fun i => at2 diffs q i) (seq 0 dim)).
  assert (Hlq : length diffs_q = dim)
    by (unfold diffs_q; now rewrite length_map, length_seq).
  destruct Hs as (Hsr & Hsc & Hsl).
  rewrite broadcast1_same
    by (now rewrite length_map, length_np_tile, Hlq, Hsl).
  simpl. rewrite length_map, Hsl.
  unfold reshape. rewrite length_map, length_seq, Nat.eqb_refl. simpl.
  unfold iadd, sum_axis1. simpl.
  rewrite length_map, length_seq, Hgrad, Nat.eqb_refl. simpl.
  f_equal. apply map_ext_in. intros k Hk. apply in_seq in Hk.
  rewrite bidx_lt by lia.
  rewrite nth_map_seq by lia.
  f_equal. f_equal.
  rewrite (firstn_skipn_nth _ fzero)
    by (rewrite length_map, length_seq; nia).
  apply map_ext_in. intros i Hi. apply in_seq in Hi.
  rewrite nth_map_seq by nia.
  f_equal.
  - rewrite (nth_indep _ fzero (fpow fzero (q + 1)))
      by (rewrite length_map, Hsl; nia).
    rewrite (map_nth (fun x => fpow x (q + 1))).
    unfold at2. now rewrite Hsc.
  - rewrite <- Hlq at 1. rewrite nth_np_tile by lia.
    unfold diffs_q. now rewrite nth_map_seq by lia.
Qed.

(** C3: on a [size x dim] sample matrix with both moment matrices of shape
    [max_moment x dim], the flatten/tile/reshape computation of
    [moment_wrt_prob] returns the vector of the nested-loop reference:
    entry [k] is the sum over the moment orders [q] from 1 to
    [max_moment] and over the dimensions [i] of
    [samples[k, i]^q * diff[q, i]]. *)
Theorem moment_wrt_prob_refines_naive
    (self : Gradient F Srom T) (samples : ndarray2 F) (probs : list F) (size dim : nat) :
  has_shape samples size dim ->
  has_shape (srom_compute_moments (_SROM self) (_max_moment self))
            (_max_moment self) dim ->
  has_shape (target_compute_moments (_target self) (_max_moment self))
            (_max_moment self) dim ->
  moment_wrt_prob self samples probs = Ok (moment_wrt_prob_naive self samples).
Proof.
  intros Hs Ha Hb. unfold moment_wrt_prob, moment_wrt_prob_naive.
  rewrite (rel_diffs_same _ _ _ dim Ha Hb). simpl.
  set (a := srom_compute_moments (_SROM self) (_max_moment self)).
  set (b := target_compute_moments (_target self) (_max_moment self)).
  set (diffs := tabulate2 (_max_moment self) dim (rel_diff_at a b)).
  assert (Hd : has_shape diffs (_max_moment self) dim) by apply tabulate2_shape.
  destruct Hs as (Hsr & Hsc & Hsl).
  assert (Hs : has_shape samples size dim) by (repeat split; assumption).
  rewrite Hsr, Hsc.
  set (rowsum := fun k q =>
         np_sum (map (fun i => fmul (fpow (at2 samples k i) (q + 1)) (at2 diffs q i))
                     (seq 0 dim))).
  assert (Hloop : forall ql grad,
             (forall q, In q ql -> q < _max_moment self) ->
             length grad = size ->
             foldM (fun grad q =>
                      diffs_q <- row diffs q ;;
                      diffs_samples_q <-
                        broadcast1 fmul (map (fun x => fpow x (q + 1)) (flat samples))
                                   (np_tile diffs_q size) ;;
                      reshaped <- reshape diffs_samples_q size dim ;;
                      iadd grad (sum_axis1 reshaped)) ql grad
             = Ok (map (fun k =>
                          fold_left (fun acc q => fadd acc (rowsum k q)) ql
                                    (nth k grad fzero))
                       (seq 0 size))).
  { induction ql as [|q ql IH]; intros grad Hql Hgrad; simpl.
    - f_equal. rewrite <- Hgrad. clear.
      induction grad as [|x grad IH]; simpl; [reflexivity|].
      f_equal. rewrite <- seq_shift, map_map. exact IH.
    - rewrite (moment_pass samples diffs grad size dim (_max_moment self) q)
        by (auto; apply Hql; now left).
      simpl. rewrite IH.
      + f_equal. apply map_ext_in. intros k Hk. apply in_seq in Hk.
        now rewrite nth_map_seq by lia.
      + intros q' Hq'. apply Hql. now right.
      + now rewrite length_map, length_seq. }
  rewrite Hloop.
  - f_equal. apply map_ext_in. intros k Hk.
    rewrite nth_np_zeros, fold_left_map_add.
    rewrite <- (seq_shift (_max_moment self) 0), map_map.
    unfold np_sum at 1. f_equal.
    apply map_ext_in. intros q Hq. apply in_seq in Hq.
    unfold rowsum. f_equal. apply map_ext_in. intros i Hi. apply in_seq in Hi.
    replace (S q) with (q + 1) by lia.
    replace (q + 1 - 1) with q by lia.
    f_equal. unfold diffs. apply at2_tabulate2; lia.
  - intros q Hq. apply in_seq in Hq. lia.
  - apply length_np_zeros.
Qed.

(** *** The correlation term *)

Lemma fold_left_pairs {A B C : Type} (op : C -> C -> C) (t : A -> B -> C)
      (la : list A) (lb : list B) (c : C) :
  fold_left (fun acc i => fold_left (fun acc j => op acc (t i j)) lb acc) la c
  = fold_left op (map (fun ij => t (fst ij) (snd ij)) (list_prod la lb)) c.
Proof.
  revert c. induction la as [|i la IH]; intros c; simpl; [reflexivity|].
  rewrite map_app, fold_left_app, map_map. simpl.
  rewrite IH. f_equal. apply fold_left_map_add.
Qed.

(** C4: on a [size x dim] sample matrix, [corr_wrt_prob] returns the zero
    vector of length [size] when [dim = 1], whatever the samples, the
    probabilities and the correlation matrices of the collaborators are;
    otherwise, with both correlation matrices of shape [dim x dim], entry
    [k] of the result is the bilinear form
    [sum over i, j of diff[i, j] * sample_k[i] * sample_k[j]] with
    [diff = (srom_corr - target_corr) / target_corr^2]. *)
Theorem corr_wrt_prob_bilinear
    (self : Gradient F Srom T) (samples : ndarray2 F) (probs : list F) (size dim : nat) :
  has_shape samples size dim ->
  (dim <> 1 ->
   has_shape (srom_compute_corr_mat (_SROM self)) dim dim /\
   has_shape (target_compute_corr_mat (_target self)) dim dim) ->
  corr_wrt_prob self samples probs
  = Ok (if dim =? 1 then np_zeros size
        else map (corr_term_spec self samples) (seq 0 size)).
Proof.
  intros Hs Hcorr. unfold corr_wrt_prob.
  destruct Hs as (Hsr & Hsc & Hsl).
  assert (Hs : has_shape samples size dim) by (repeat split; assumption).
  rewrite Hsr, Hsc.
  destruct (Nat.eqb_spec dim 1) as [Hd|Hd]; [reflexivity|].
  destruct (Hcorr Hd) as [Ha Hb].
  rewrite (rel_diffs_same _ _ dim dim Ha Hb). simpl.
  set (a := srom_compute_corr_mat (_SROM self)).
  set (b := target_compute_corr_mat (_target self)).
  apply mapM_pure. intros k Hk. apply in_seq in Hk.
  rewrite (row_entries samples size dim k Hs) by lia. simpl.
  unfold corr_term_spec. rewrite Hsc. fold a b.
  set (term := fun i j =>
         fmul (fmul (rel_diff_at a b i j) (at2 samples k i)) (at2 samples k j)).
  rewrite (foldM_pure _
    (fun acc i => fold_left (fun acc j => fadd acc (term i j)) (seq 0 dim) acc)).
  - f_equal. unfold np_sum. apply (fold_left_pairs fadd term).
  - intros acc i Hi. apply in_seq in Hi.
    apply foldM_pure. intros acc' j Hj. apply in_seq in Hj.
    rewrite (get2_entry _ dim dim) by (try apply tabulate2_shape; lia).
    simpl. rewrite !lookup_map_seq by lia. simpl.
    unfold term. now rewrite at2_tabulate2 by lia.
Qed.

End Terms.

(** ** The combined gradient *)

Section Combination.
Context {F : Type} `{Scalar F}.
Context {Srom : Type} `{SROMModel F Srom}.
Context {T : Type} `{TargetRV F T}.

Lemma nth_scale (w : F) (v : list F) (k : nat) :
  k < length v -> nth k (scale w v) fzero = fmul w (nth k v fzero).
Proof.
  intros Hk. unfold scale.
  rewrite (nth_indep _ fzero (fmul w fzero)) by (now rewrite length_map).
  apply map_nth.
Qed.

Lemma length_scale (w : F) (v : list F) : length (scale w v) = length v.
Proof. apply length_map. Qed.

Lemma combine_terms (w0 w1 w2 : F) (c m r : list F) :
  length m = length c -> length r = length c ->
  (partial <- broadcast1 fadd (scale w0 c) (scale w1 m) ;;
   broadcast1 fadd partial (scale w2 r))
  = Ok (weighted_sum w0 w1 w2 c m r).
Proof.
  intros Hm Hr.
  rewrite broadcast1_same by (now rewrite !length_scale).
  rewrite length_scale.
  cbn [bind].
  set (partial := map _ (seq 0 (length c))).
  assert (Hp : length partial = length c)
    by (unfold partial; now rewrite length_map, length_seq).
  rewrite broadcast1_same by (now rewrite length_scale, Hp).
  unfold weighted_sum. f_equal. rewrite Hp.
  apply map_ext_in. intros k Hk. apply in_seq in Hk.
  unfold partial. rewrite nth_map_seq by lia.
  now rewrite !nth_scale by lia.
Qed.

Lemma length_guarded (w : F) (term : list F) (size : nat) :
  length term = size -> length (guarded w term size) = size.
Proof.
  intros Hl. unfold guarded. destruct (fgtb w fzero); [assumption|].
  apply length_np_zeros.
Qed.

Lemma bind_Ok_inv {A B : Type} (m : res A) (k : A -> res B) (b : B) :
  bind m k = Ok b -> exists a, m = Ok a /\ k a = Ok b.
Proof.
  destruct m as [a|e]; simpl; [|discriminate]. intros Hk. now exists a.
Qed.

Lemma foldM_invariant {A B : Type} (P : B -> Prop) (f : B -> A -> res B) (l : list A) :
  (forall b x b', P b -> f b x = Ok b' -> P b') ->
  forall b b', P b -> foldM f l b = Ok b' -> P b'.
Proof.
  intros Hstep. induction l as [|x l IH]; intros b b' Hb; simpl.
  - now intros [= <-].
  - intros Hfold. apply bind_Ok_inv in Hfold as (b1 & Hf & Hrest).
    apply (IH b1 b'); [|exact Hrest]. now apply (Hstep b x).
Qed.

Lemma iadd_length (grad v grad' : list F) :
  iadd grad v = Ok grad' -> length grad' = length grad.
Proof.
  unfold iadd. destruct ((length v =? length grad) || (length v =? 1)); [|discriminate].
  intros [= <-]. now rewrite length_map, length_seq.
Qed.

(** Each term function, when it returns, returns one entry per sample. *)
Lemma CDF_wrt_prob_length
      (self : Gradient F Srom T) (samples : ndarray2 F) (probs c : list F) :
  CDF_wrt_prob self samples probs = Ok c -> length c = nrows samples.
Proof.
  unfold CDF_wrt_prob. intros Hc.
  apply bind_Ok_inv in Hc as (diffs & _ & Hc).
  apply mapM_length in Hc. now rewrite length_seq in Hc.
Qed.

Lemma moment_wrt_prob_length
      (self : Gradient F Srom T) (samples : ndarray2 F) (probs m : list F) :
  moment_wrt_prob self samples probs = Ok m -> length m = nrows samples.
Proof.
  unfold moment_wrt_prob. intros Hm.
  apply bind_Ok_inv in Hm as (diffs & _ & Hm).
  apply (foldM_invariant (fun grad => length grad = nrows samples)) in Hm;
    [exact Hm| |apply length_np_zeros].
  intros grad q grad' Hgrad Hpass.
  apply bind_Ok_inv in Hpass as (diffs_q & _ & Hpass).
  apply bind_Ok_inv in Hpass as (prod & _ & Hpass).
  apply bind_Ok_inv in Hpass as (reshaped & _ & Hpass).
  apply iadd_length in Hpass. congruence.
Qed.

Lemma corr_wrt_prob_length
      (self : Gradient F Srom T) (samples : ndarray2 F) (probs r : list F) :
  corr_wrt_prob self samples probs = Ok r -> length r = nrows samples.
Proof.
  unfold corr_wrt_prob. destruct (ncols samples =? 1).
  - intros [= <-]. apply length_np_zeros.
  - intros Hr. apply bind_Ok_inv in Hr as (diffs & _ & Hr).
    apply mapM_length in Hr. now rewrite length_seq in Hr.
Qed.

(** C1, as amended: on a [size x dim] sample matrix, with the SROM's
    [_size] equal to [size], if the three term functions compute the
    vectors [c], [m] and [r], then [gradient_wrt_probs] returns a vector
    of length [size], equal to [w_cdf*c' + w_moment*m' + w_corr*r'], where
    each primed vector is the computed term when its weight is greater
    than zero and the zero vector of length [size] otherwise. *)
Theorem gradient_wrt_probs_guarded_sum
    (self : Gradient F Srom T) (samples : ndarray2 F) (probs : list F)
    (size dim : nat) (w0 w1 w2 : F) (c m r : list F) :
  has_shape samples size dim ->
  srom_size (_SROM self) = size ->
  _weights self = [w0; w1; w2] ->
  CDF_wrt_prob self samples probs = Ok c ->
  moment_wrt_prob self samples probs = Ok m ->
  corr_wrt_prob self samples probs = Ok r ->
  gradient_wrt_probs self samples probs
  = Ok (weighted_sum w0 w1 w2 (guarded w0 c size) (guarded w1 m size)
                     (guarded w2 r size)) /\
  length (weighted_sum w0 w1 w2 (guarded w0 c size) (guarded w1 m size)
                       (guarded w2 r size)) = size.
Proof.
  intros (Hrows & _ & _) Hsize Hw Hc Hm Hr.
  assert (Hlc : length c = size) by (rewrite <- Hrows; eapply CDF_wrt_prob_length; eauto).
  assert (Hlm : length m = size) by (rewrite <- Hrows; eapply moment_wrt_prob_length; eauto).
  assert (Hlr : length r = size) by (rewrite <- Hrows; eapply corr_wrt_prob_length; eauto).
  split.
  - unfold gradient_wrt_probs. rewrite Hw, Hsize, Hc, Hm, Hr. cbn [lookup nth_error bind].
    replace (if fgtb w0 fzero then Ok c else Ok (np_zeros size))
      with (Ok (guarded w0 c size)) by (unfold guarded; now destruct (fgtb w0 fzero)).
    replace (if fgtb w1 fzero then Ok m else Ok (np_zeros size))
      with (Ok (guarded w1 m size)) by (unfold guarded; now destruct (fgtb w1 fzero)).
    replace (if fgtb w2 fzero then Ok r else Ok (np_zeros size))
      with (Ok (guarded w2 r size)) by (unfold guarded; now destruct (fgtb w2 fzero)).
    cbn [bind].
    apply combine_terms; now rewrite !length_guarded.
  - unfold weighted_sum. rewrite length_map, length_seq.
    now apply length_guarded.
Qed.

(** C7: when the weight of a term is zero, the value of
    [gradient_wrt_probs] does not depend on that term: whatever changes in
    the evaluator, the collaborators and the arguments, if the weights,
    the SROM's [_size] and the values of the two other terms are the
    same, the total gradient is the same, whether the term of weight zero
    would return other values or raise. *)
Theorem zero_weight_term_is_skipped
    (self self' : Gradient F Srom T) (samples samples' : ndarray2 F)
    (probs probs' : list F) (t : nat) :
  fgtb fzero fzero = false ->
  t < 3 ->
  lookup (_weights self) t = Ok fzero ->
  _weights self' = _weights self ->
  srom_size (_SROM self') = srom_size (_SROM self) ->
  (forall u, u < 3 -> u <> t ->
     term_fun u self' samples' probs' = term_fun u self samples probs) ->
  gradient_wrt_probs self' samples' probs' = gradient_wrt_probs self samples probs.
Proof.
  intros Hirr Ht Hzero Hw Hsize Hothers.
  assert (Hcdf : t <> 0 ->
            CDF_wrt_prob self' samples' probs' = CDF_wrt_prob self samples probs)
    by (intros; apply (Hothers 0); lia).
  assert (Hmom : t <> 1 ->
            moment_wrt_prob self' samples' probs' = moment_wrt_prob self samples probs)
    by (intros; apply (Hothers 1); lia).
  assert (Hcor : t <> 2 ->
            corr_wrt_prob self' samples' probs' = corr_wrt_prob self samples probs)
    by (intros; apply (Hothers 2); lia).
  unfold gradient_wrt_probs. rewrite Hw, Hsize.
  destruct t as [|[|[|t]]]; [| | |lia];
    rewrite Hzero; cbn [bind]; rewrite Hirr.
  - rewrite Hmom, Hcor by lia. reflexivity.
  - rewrite Hcdf, Hcor by lia. reflexivity.
  - rewrite Hcdf, Hmom by lia. reflexivity.
Qed.

(** C8: [evaluate] replaces the SROM model by the one [set_params] yields
    for [(samples, probs)] and returns what [gradient_wrt_probs] returns
    on that state; the target, the grid, the weights, the metric and
    [max_moment] of the evaluator are the same after the call. *)
Theorem evaluate_sets_params_then_gradient
    (self : Gradient F Srom T) (samples : ndarray2 F) (probs : list F) :
  let self' := fst (evaluate self samples probs) in
  _SROM self' = set_params (_SROM self) samples probs /\
  snd (evaluate self samples probs) = gradient_wrt_probs self' samples probs /\
  _target self' = _target self /\
  _x_grid self' = _x_grid self /\
  _weights self' = _weights self /\
  _metric self' = _metric self /\
  _max_moment self' = _max_moment self.
Proof. simpl. repeat split. Qed.

Lemma gradient_ignores_metric
      (self : Gradient F Srom T) (metric : string) (samples : ndarray2 F) (probs : list F) :
  gradient_wrt_probs (set_metric self metric) samples probs
  = gradient_wrt_probs self samples probs.
Proof. reflexivity. Qed.

(** C10: [gradient_wrt_probs] and the three term functions return the
    same value for any two probability vectors. *)
Theorem probs_argument_never_read
    (self : Gradient F Srom T) (samples : ndarray2 F) (p1 p2 : list F) :
  gradient_wrt_probs self samples p1 = gradient_wrt_probs self samples p2 /\
  CDF_wrt_prob self samples p1 = CDF_wrt_prob self samples p2 /\
  moment_wrt_prob self samples p1 = moment_wrt_prob self samples p2 /\
  corr_wrt_prob self samples p1 = corr_wrt_prob self samples p2.
Proof. repeat split. Qed.

End Combination.

(** ** Construction *)

Lemma foldM_app {A B : Type} (f : B -> A -> res B) (l1 l2 : list A) (b : B) :
  foldM f (l1 ++ l2) b = (b' <- foldM f l1 b ;; foldM f l2 b').
Proof.
  revert b. induction l1 as [|x l1 IH]; intros b; simpl; [reflexivity|].
  destruct (f b x) as [b'|e]; simpl; [apply IH|reflexivity].
Qed.

Lemma upper_lower_ascii (c : ascii) : upper_ascii (lower_ascii c) = upper_ascii c.
Proof. destruct c as [[] [] [] [] [] [] [] []]; reflexivity. Qed.

Lemma lower_upper_ascii (c : ascii) : lower_ascii (upper_ascii c) = lower_ascii c.
Proof. destruct c as [[] [] [] [] [] [] [] []]; reflexivity. Qed.

Lemma upper_special2_ascii (c1 c2 : ascii) :
  (nat_of_ascii c1 <? 128) = true -> upper_special2 c1 c2 = None.
Proof.
  intros Hc. apply Nat.ltb_lt in Hc. unfold upper_special2.
  destruct (Nat.eqb_spec (nat_of_ascii c1) 195); [lia|].
  destruct (Nat.eqb_spec (nat_of_ascii c1) 196); [lia|].
  destruct (Nat.eqb_spec (nat_of_ascii c1) 197); [lia|].
  reflexivity.
Qed.

Lemma upper_special3_ascii (c1 c2 c3 : ascii) :
  (nat_of_ascii c1 <? 128) = true -> upper_special3 c1 c2 c3 = None.
Proof.
  intros Hc. apply Nat.ltb_lt in Hc. unfold upper_special3.
  destruct (Nat.eqb_spec (nat_of_ascii c1) 239); [lia|]. reflexivity.
Qed.

(** On an ASCII character at its head, [upper] works character by
    character. *)
Lemma upper_cons_ascii (c : ascii) (s : string) :
  (nat_of_ascii c <? 128) = true -> upper (String c s) = String (upper_ascii c) (upper s).
Proof.
  intros Hc. destruct s as [|c2 [|c3 r3]]; cbn [upper].
  - reflexivity.
  - now rewrite upper_special2_ascii.
  - now rewrite upper_special2_ascii, upper_special3_ascii.
Qed.

Lemma upper_ascii_keeps_ascii (c : ascii) :
  (nat_of_ascii c <? 128) = true -> (nat_of_ascii (upper_ascii c) <? 128) = true.
Proof. destruct c as [[] [] [] [] [] [] [] []]; intros Hc; try discriminate; reflexivity. Qed.

Lemma lower_ascii_keeps_ascii (c : ascii) :
  (nat_of_ascii c <? 128) = true -> (nat_of_ascii (lower_ascii c) <? 128) = true.
Proof. destruct c as [[] [] [] [] [] [] [] []]; intros Hc; try discriminate; reflexivity. Qed.

Lemma upper_keeps_ascii (s : string) : ascii_only s = true -> ascii_only (upper s) = true.
Proof.
  induction s as [|c s IH]; intros Hs; [reflexivity|].
  cbn [ascii_only] in Hs. apply andb_true_iff in Hs as [Hc Hs].
  rewrite upper_cons_ascii by exact Hc. cbn [ascii_only].
  now rewrite upper_ascii_keeps_ascii, IH.
Qed.

Lemma lower_keeps_ascii (s : string) : ascii_only s = true -> ascii_only (lower s) = true.
Proof.
  induction s as [|c s IH]; intros Hs; [reflexivity|].
  cbn [ascii_only] in Hs. apply andb_true_iff in Hs as [Hc Hs].
  cbn [lower ascii_only]. now rewrite lower_ascii_keeps_ascii, IH.
Qed.

Lemma upper_lower (s : string) : ascii_only s = true -> upper (lower s) = upper s.
Proof.
  induction s as [|c s IH]; intros Hs; [reflexivity|].
  cbn [ascii_only] in Hs. apply andb_true_iff in Hs as [Hc Hs].
  cbn [lower]. rewrite !upper_cons_ascii by (auto using lower_ascii_keeps_ascii).
  now rewrite upper_lower_ascii, IH.
Qed.

Lemma lower_upper (s : string) : ascii_only s = true -> lower (upper s) = lower s.
Proof.
  induction s as [|c s IH]; intros Hs; [reflexivity|].
  cbn [ascii_only] in Hs. apply andb_true_iff in Hs as [Hc Hs].
  rewrite upper_cons_ascii by exact Hc. cbn [lower].
  now rewrite lower_upper_ascii, IH.
Qed.

(** On ASCII strings the comparison of the upper-case forms is the
    comparison of the lower-case forms. *)
Lemma eq_ignore_case_ascii (s t : string) :
  ascii_only s = true -> ascii_only t = true ->
  eq_ignore_case s t = String.eqb (lower s) (lower t).
Proof.
  intros Hs Ht. unfold eq_ignore_case.
  destruct (String.eqb_spec (upper s) (upper t)) as [E|E];
    destruct (String.eqb_spec (lower s) (lower t)) as [E'|E']; try reflexivity.
  - exfalso. apply E'. rewrite <- (lower_upper s), <- (lower_upper t) by assumption.
    now rewrite E.
  - exfalso. apply E. rewrite <- (upper_lower s), <- (upper_lower t) by assumption.
    now rewrite E'.
Qed.


Section Construction.
Context {F : Type} `{Scalar F}.
Context {Srom : Type} `{SROMModel F Srom}.
Context {T : Type} `{TargetRV F T}.

Lemma length_set_last (l : list F) (x : F) : length (set_last l x) = length l.
Proof.
  destruct l as [|y l]; [reflexivity|]. unfold set_last.
  rewrite length_app, removelast_firstn_len, length_firstn. simpl. lia.
Qed.

Lemma length_np_linspace (start stop : F) (num : nat) :
  length (np_linspace start stop num) = num.
Proof.
  unfold np_linspace.
  destruct (1 <? num); [rewrite length_set_last|];
    rewrite length_map;
    destruct (0 <? num - 1); [destruct (feqb _ _)| | destruct (feqb _ _)|];
    now rewrite !length_map, length_seq.
Qed.

Lemma map_nth_seq (l : list F) :
  map (fun r => nth r l fzero) (seq 0 (length l)) = l.
Proof.
  induction l as [|x l IH]; simpl; [reflexivity|].
  f_equal. rewrite <- seq_shift, map_map. exact IH.
Qed.

Lemma np_zeros2_shape (r c : nat) : has_shape (np_zeros2 r c : ndarray2 F) r c.
Proof. unfold has_shape, np_zeros2. simpl. now rewrite repeat_length. Qed.

(** After the columns [0 .. d-1] have been written, each of them holds
    the values of [linspace] for its dimension. *)
Lemma generate_cdf_grids_prefix (target : T) (cdf_grid_pts d : nat) :
  bounded target -> d <= target_dim target ->
  exists x_grid,
    foldM (fun x_grid i =>
             lo <- lookup (target_mins target) i ;;
             hi <- lookup (target_maxs target) i ;;
             set_col x_grid i (np_linspace lo hi cdf_grid_pts))
          (seq 0 d) (np_zeros2 cdf_grid_pts (target_dim target)) = Ok x_grid /\
    has_shape x_grid cdf_grid_pts (target_dim target) /\
    forall i r, i < d -> r < cdf_grid_pts ->
      at2 x_grid r i
      = nth r (np_linspace (nth i (target_mins target) fzero)
                           (nth i (target_maxs target) fzero) cdf_grid_pts) fzero.
Proof.
  intros [Hlo Hhi]. induction d as [|d IH]; intros Hd.
  - eexists. split; [reflexivity|]. split; [apply np_zeros2_shape|]. intros; lia.
  - destruct IH as (xg & Hfold & Hshape & Hcols); [lia|].
    rewrite seq_S, foldM_app, Hfold. simpl.
    rewrite (lookup_nth _ _ fzero) by lia. simpl.
    rewrite (lookup_nth _ _ fzero) by lia. simpl.
    unfold set_col. destruct Hshape as (Hr & Hc & Hl).
    rewrite Hr, Hc, length_np_linspace, Nat.eqb_refl.
    destruct (Nat.ltb_spec d (target_dim target)); [|lia]. simpl.
    eexists. split; [reflexivity|]. split; [apply tabulate2_shape|].
    intros i r Hi Hrlt. rewrite at2_tabulate2 by lia.
    destruct (Nat.eqb_spec i d) as [->|Hne].
    + now rewrite bidx_lt.
    + apply Hcols; lia.
Qed.

Lemma generate_cdf_grids_columns (target : T) (cdf_grid_pts : nat) :
  bounded target ->
  exists x_grid,
    generate_cdf_grids target cdf_grid_pts = Ok x_grid /\
    has_shape x_grid cdf_grid_pts (target_dim target) /\
    forall i, i < target_dim target ->
      col x_grid i
      = Ok (np_linspace (nth i (target_mins target) fzero)
                        (nth i (target_maxs target) fzero) cdf_grid_pts).
Proof.
  intros Hb.
  destruct (generate_cdf_grids_prefix target cdf_grid_pts (target_dim target) Hb (le_n _))
    as (xg & Hfold & Hshape & Hcols).
  exists xg. split; [exact Hfold|]. split; [exact Hshape|].
  intros i Hi. rewrite (col_entries xg _ _ i Hshape Hi). f_equal.
  rewrite <- (map_nth_seq (np_linspace _ _ cdf_grid_pts)).
  rewrite length_np_linspace.
  apply map_ext_in. intros r Hr. apply in_seq in Hr.
  apply Hcols; lia.
Qed.


(** C9: two evaluators built from the same arguments except for the
    error metric return the same value from [gradient_wrt_probs] on every
    input. *)
Theorem metric_never_read
    (SROM : Srom) (targetRV : T) (obj_weights : option (list F)) (error1 error2 : string)
    (max_moment cdf_grid_pts : nat) (g1 g2 : Gradient F Srom T)
    (samples : ndarray2 F) (probs : list F) :
  init SROM targetRV obj_weights error1 max_moment cdf_grid_pts = Ok g1 ->
  init SROM targetRV obj_weights error2 max_moment cdf_grid_pts = Ok g2 ->
  gradient_wrt_probs g1 samples probs = gradient_wrt_probs g2 samples probs.
Proof.
  unfold init.
  destruct (generate_cdf_grids targetRV cdf_grid_pts) as [xg|e]; [|discriminate].
  cbn [bind].
  destruct (match obj_weights with
            | Some w => if negb (length w =? 3)
                        then Raise (ValueError "obj_weights must have length 3!")
                        else Ok w
            | None => Ok (np_ones 3)
            end) as [w|e]; [|discriminate].
  cbn [bind].
  destruct (negb (str_in (upper error1) metrics)); [discriminate|].
  destruct (negb (str_in (upper error2) metrics)); [discriminate|].
  intros [= <-] [= <-]. reflexivity.
Qed.

End Construction.

(** ** The grid in exact arithmetic *)

Section ExactGrid.
Context {F : Type} `{ExactField F}.
Context {T : Type} `{TargetRV F T}.

Add Field exact_field_tactics : exact_field.

Lemma nth_set_last_lt (l : list F) (x d : F) (j : nat) :
  j < length l - 1 -> nth j (set_last l x) d = nth j l d.
Proof.
  intros Hj. destruct l as [|y l]; [simpl in Hj; lia|].
  unfold set_last. rewrite removelast_firstn_len.
  rewrite app_nth1 by (rewrite length_firstn; simpl in *; lia).
  rewrite nth_firstn.
  destruct (Nat.ltb_spec j (pred (length (y :: l)))); [reflexivity|].
  simpl in *. lia.
Qed.

Lemma nth_set_last_last (l : list F) (x d : F) :
  l <> [] -> nth (length l - 1) (set_last l x) d = x.
Proof.
  intros Hne. destruct l as [|y l]; [contradiction|].
  unfold set_last. rewrite removelast_firstn_len.
  rewrite app_nth2 by (rewrite length_firstn; simpl; lia).
  rewrite length_firstn.
  replace (length (y :: l) - 1 - Nat.min (pred (length (y :: l))) (length (y :: l)))
    with 0 by (simpl; lia).
  reflexivity.
Qed.

Lemma np_linspace_inner (a b : F) (n j : nat) :
  j < S n ->
  nth j (np_linspace a b (S (S n))) fzero
  = fadd (fmul (of_nat j) (fdiv (fsub b a) (of_nat (S n)))) a.
Proof.
  intros Hj. pose proof (of_nat_S_nonzero n) as Hnz.
  unfold np_linspace.
  replace (1 <? S (S n)) with true by (symmetry; now apply Nat.ltb_lt; lia).
  replace (S (S n) - 1) with (S n) by lia.
  replace (0 <? S n) with true by (symmetry; now apply Nat.ltb_lt; lia).
  rewrite nth_set_last_lt.
  - destruct (feqb (fdiv (fsub b a) (of_nat (S n))) fzero);
      rewrite !map_map, nth_map_seq by lia; [field; exact Hnz|reflexivity].
  - rewrite length_map.
    destruct (feqb (fdiv (fsub b a) (of_nat (S n))) fzero);
      rewrite !length_map, length_seq; lia.
Qed.

Lemma np_linspace_last (a b : F) (n : nat) :
  nth (S n) (np_linspace a b (S (S n))) fzero = b.
Proof.
  pose proof (length_np_linspace a b (S (S n))) as Hlen.
  unfold np_linspace in *.
  replace (1 <? S (S n)) with true in * by (symmetry; now apply Nat.ltb_lt; lia).
  rewrite length_set_last in Hlen.
  replace (S n) with (S (S n) - 1) at 1 by lia.
  rewrite <- Hlen at 1.
  apply nth_set_last_last.
  intros E. rewrite E in Hlen. discriminate.
Qed.

Lemma np_linspace_uniform (a b : F) (N : nat) :
  2 <= N -> uniform_column (np_linspace a b N) a b N.
Proof.
  intros HN. destruct N as [|[|n]]; [lia|lia|].
  pose proof (of_nat_S_nonzero n) as Hnz.
  split; [apply length_np_linspace|]. split; [|split].
  - rewrite np_linspace_inner by lia. rewrite of_nat_O. field. exact Hnz.
  - replace (S (S n) - 1) with (S n) by lia. apply np_linspace_last.
  - intros j Hj. replace (S (S n) - 1) with (S n) by lia.
    destruct (Nat.eq_dec (j + 1) (S n)) as [E|E].
    + rewrite E, np_linspace_last, np_linspace_inner by lia.
      assert (Hn : of_nat (S n) = fadd (of_nat j) fone)
        by (rewrite <- E, Nat.add_1_r; apply of_nat_S).
      rewrite Hn in *. field. exact Hnz.
    + rewrite !np_linspace_inner by lia.
      rewrite Nat.add_1_r, of_nat_S. field. exact Hnz.
Qed.

(** C5, as amended: for a target with a bound per dimension and a point
    count [N >= 2], the grid builder returns an [N x dim] grid whose
    column [i] holds [N] values, the first equal to [a_i], the last equal
    to [b_i], consecutive values differing by [(b_i - a_i) / (N - 1)]. *)
Theorem generate_cdf_grids_uniform (target : T) (N : nat) :
  bounded target -> 2 <= N ->
  exists x_grid,
    generate_cdf_grids target N = Ok x_grid /\
    has_shape x_grid N (target_dim target) /\
    forall i, i < target_dim target ->
      exists column,
        col x_grid i = Ok column /\
        uniform_column column (nth i (target_mins target) fzero)
                       (nth i (target_maxs target) fzero) N.
Proof.
  intros Hb HN.
  destruct (generate_cdf_grids_columns target N Hb) as (xg & Hgen & Hshape & Hcols).
  exists xg. split; [exact Hgen|]. split; [exact Hshape|].
  intros i Hi. eexists. split; [apply Hcols; exact Hi|].
  now apply np_linspace_uniform.
Qed.

End ExactGrid.

(** ** The rationals are an exact field *)

Module RationalLaws.
Import Rational.

Lemma q_S (n : nat) : q (Z.of_nat (S n)) = Qcplus (q (Z.of_nat n)) (q 1).
Proof.
  apply Qc_is_canon. unfold q, Qcplus, Q2Qc. cbn [this].
  rewrite !Qred_correct, Nat2Z.inj_succ. unfold Z.succ.
  now rewrite inject_Z_plus.
Qed.

Lemma q_S_nonzero (n : nat) : q (Z.of_nat (S n)) <> q 0.
Proof.
  intros E. apply (f_equal this) in E. unfold q, Q2Qc in E. cbn [this] in E.
  assert (Hq : Qeq (inject_Z (Z.of_nat (S n))) (inject_Z 0))
    by (rewrite <- (Qred_correct (inject_Z (Z.of_nat (S n)))), E; apply Qred_correct).
  unfold Qeq, inject_Z in Hq. simpl in Hq. lia.
Qed.

Lemma numbers_inj (u v : res (list Qc)) : numbers u = numbers v -> u = v.
Proof.
  destruct u as [u|e], v as [v|e']; simpl; try discriminate; [|congruence].
  intros [= Huv]. f_equal. revert v Huv.
  induction u as [|x u IH]; intros [|y v]; simpl; try discriminate; [reflexivity|].
  intros [= Hxy Huv]. f_equal; [|now apply IH].
  apply Qc_is_canon. now rewrite Hxy.
Qed.

#[export] Instance Qc_ExactField : ExactField Qc.
Proof.
  split.
  - split; [split| | |]; simpl; intros; try ring;
      unfold q in *;
      change (inject_Z 0) with 0%Q in *; change (inject_Z 1) with 1%Q in *.
    + ring.
    + ring.
    + ring.
    + discriminate.
    + unfold Qcdiv. ring.
    + field. assumption.
  - reflexivity.
  - exact q_S.
  - exact q_S_nonzero.
Qed.

End RationalLaws.

(** ** The theorems on a concrete evaluator

    Two samples in two dimensions, a grid of two points per dimension and
    collaborators with constant tables, over the rationals. *)

Module Scenario.
Import Rational RationalLaws Example.

Lemma CDF_wrt_prob_indicator_sums_witness :
  CDF_wrt_prob (evaluator ones3) samples probs
  = Ok (map (CDF_term_spec (evaluator ones3) samples) (seq 0 2)).
Proof.
  apply (CDF_wrt_prob_indicator_sums (evaluator ones3) samples probs 2 2 2);
    repeat split.
Defined.

Lemma moment_wrt_prob_refines_naive_witness :
  moment_wrt_prob (evaluator ones3) samples probs
  = Ok (moment_wrt_prob_naive (evaluator ones3) samples).
Proof.
  apply (moment_wrt_prob_refines_naive (evaluator ones3) samples probs 2 2);
    repeat split.
Defined.

Lemma corr_wrt_prob_bilinear_witness :
  corr_wrt_prob (evaluator ones3) samples probs
  = Ok (map (corr_term_spec (evaluator ones3) samples) (seq 0 2)) /\
  corr_wrt_prob (evaluator ones3) samples1 [q 1] = Ok (np_zeros 1).
Proof.
  split.
  - apply (corr_wrt_prob_bilinear (evaluator ones3) samples probs 2 2);
      [repeat split | intros _; repeat split].
  - apply (corr_wrt_prob_bilinear (evaluator ones3) samples1 [q 1] 1 1);
      [repeat split | intros Hne; now contradiction Hne].
Defined.

Lemma gradient_wrt_probs_guarded_sum_witness :
  gradient_wrt_probs (evaluator [q 0; q 1; q 1]) samples probs
  = Ok (weighted_sum (q 0) (q 1) (q 1) (guarded (q 0) [q 3; q 3] 2)
                     (guarded (q 1) [q 2; q 2] 2) (guarded (q 1) [q 1; q 1] 2)) /\
  length (weighted_sum (q 0) (q 1) (q 1) (guarded (q 0) [q 3; q 3] 2)
                       (guarded (q 1) [q 2; q 2] 2) (guarded (q 1) [q 1; q 1] 2)) = 2.
Proof.
  apply (gradient_wrt_probs_guarded_sum
           (evaluator [q 0; q 1; q 1]) samples probs 2 2 (q 0) (q 1) (q 1)).
  - repeat split.
  - reflexivity.
  - reflexivity.
  - apply numbers_inj. vm_compute. reflexivity.
  - apply numbers_inj. vm_compute. reflexivity.
  - apply numbers_inj. vm_compute. reflexivity.
Defined.

Lemma generate_cdf_grids_uniform_witness :
  exists x_grid,
    generate_cdf_grids target 3 = Ok x_grid /\
    has_shape x_grid 3 (target_dim target) /\
    forall i, i < target_dim target ->
      exists column,
        col x_grid i = Ok column /\
        uniform_column column (nth i (target_mins target) fzero)
                       (nth i (target_maxs target) fzero) 3.
Proof.
  apply (generate_cdf_grids_uniform target 3).
  - split; simpl; lia.
  - lia.
Defined.

(** C5 as stated fails for a single point: on [[0, 1]] with [N = 1] the
    column is the single value 0, so its last value is not 1. *)
Lemma generate_cdf_grids_single_point :
  exists x_grid column,
    generate_cdf_grids target1 1 = Ok x_grid /\
    col x_grid 0 = Ok column /\
    ~ uniform_column column (q 0) (q 1) 1.
Proof.
  eexists. eexists. split; [reflexivity|]. split; [reflexivity|].
  intros (_ & _ & Hlast & _).
  apply (f_equal this) in Hlast. vm_compute in Hlast. discriminate.
Qed.


(** The two spellings of "sse" outside ASCII whose upper-case form is "SSE"
    are accepted, as "sse" is. *)
Lemma init_accepts_upper_case_sse :
  init srom target None Edge.long_s_se 1 2 = init srom target None "sse" 1 2 /\
  init srom target None Edge.sharp_s_e 1 2 = init srom target None "sse" 1 2 /\
  eq_ignore_case Edge.long_s_se "sse" = true /\
  eq_ignore_case Edge.sharp_s_e "sse" = true.
Proof. repeat split. Qed.

Lemma zero_weight_term_is_skipped_witness :
  gradient_wrt_probs (evaluator' [q 1; q 1; q 0]) samples probs
  = gradient_wrt_probs (evaluator [q 1; q 1; q 0]) samples probs.
Proof.
  apply (zero_weight_term_is_skipped
           (evaluator [q 1; q 1; q 0]) (evaluator' [q 1; q 1; q 0])
           samples samples probs probs 2).
  - reflexivity.
  - lia.
  - reflexivity.
  - reflexivity.
  - reflexivity.
  - intros u Hu Hne. destruct u as [|[|u]]; [reflexivity|reflexivity|lia].
Defined.

Lemma metric_never_read_witness :
  exists g1 g2,
    init srom target None "mean" 1 2 = Ok g1 /\
    init srom target None "max" 1 2 = Ok g2 /\
    gradient_wrt_probs g1 samples probs = gradient_wrt_probs g2 samples probs.
Proof.
  eexists. eexists. split; [reflexivity|]. split; [reflexivity|].
  apply (metric_never_read srom target None "mean" "max" 1 2); reflexivity.
Defined.

End Scenario.

(** ** Further properties of the three terms *)

Section TermEdges.
Context {F : Type} `{Scalar F}.
Context {Srom : Type} `{SROMModel F Srom}.
Context {T : Type} `{TargetRV F T}.

Lemma fold_left_ext_in {A B : Type} (f g : B -> A -> B) (l : list A) (b : B) :
  (forall acc x, In x l -> f acc x = g acc x) -> fold_left f l b = fold_left g l b.
Proof.
  revert b. induction l as [|x l IH]; intros b Hfg; simpl; [reflexivity|].
  rewrite (Hfg b x (or_introl eq_refl)). apply IH.
  intros acc y Hy. apply Hfg. now right.
Qed.

Lemma np_sum_map_fold {A : Type} (f : A -> F) (l : list A) :
  np_sum (map f l) = fold_left (fun acc x => fadd acc (f x)) l fzero.
Proof. unfold np_sum. symmetry. apply fold_left_map_add. Qed.

(** One pass of the loop over the dimensions in [CDF_wrt_prob], on a grid
    and a matrix of differences that are [width] columns wide. *)
Lemma CDF_dimension_pass (x_grid diffs : ndarray2 F) (samples_k : list F)
      (grid_pts width i : nat) (grad_i : F) :
  has_shape x_grid grid_pts width -> has_shape diffs grid_pts width ->
  i < width -> i < length samples_k ->
  (grid_i <- col x_grid i ;;
   s_ki <- lookup samples_k i ;;
   picked <- mask_col diffs (map (fun x => fgeb x s_ki) grid_i) i ;;
   Ok (fadd grad_i (np_sum picked)))
  = Ok (fadd grad_i
          (np_sum (map (fun g => at2 diffs g i)
                       (filter (fun g => fgeb (at2 x_grid g i) (nth i samples_k fzero))
                               (seq 0 grid_pts))))).
Proof.
  intros Hg Hd Hi Hk.
  rewrite (col_entries x_grid grid_pts width i Hg Hi). cbn [bind].
  rewrite (lookup_nth samples_k i fzero Hk). cbn [bind].
  unfold mask_col. destruct Hd as (Hdr & Hdc & Hdl).
  rewrite !length_map, length_seq, Hdr, Nat.eqb_refl. cbn [negb].
  rewrite (col_entries diffs grid_pts width i) by (repeat split; assumption).
  cbn [bind]. now rewrite map_map, mask_select.
Qed.

(** The loop over the dimensions for one sample, as far as the grid is
    wide. *)
Lemma CDF_dimension_loop (x_grid diffs : ndarray2 F) (samples_k : list F)
      (grid_pts width n : nat) (grad_i : F) :
  has_shape x_grid grid_pts width -> has_shape diffs grid_pts width ->
  n <= width -> n <= length samples_k ->
  foldM (fun grad_i i =>
           grid_i <- col x_grid i ;;
           s_ki <- lookup samples_k i ;;
           let indz := map (fun x => fgeb x s_ki) grid_i in
           picked <- mask_col diffs indz i ;;
           Ok (fadd grad_i (np_sum picked)))
        (seq 0 n) grad_i
  = Ok (fold_left (fun acc i =>
          fadd acc (np_sum (map (fun g => at2 diffs g i)
                               (filter (fun g => fgeb (at2 x_grid g i) (nth i samples_k fzero))
                                       (seq 0 grid_pts)))))
          (seq 0 n) grad_i).
Proof.
  intros Hg Hd Hn Hk. apply foldM_pure. intros acc i Hi. apply in_seq in Hi.
  apply (CDF_dimension_pass x_grid diffs samples_k grid_pts width); auto; lia.
Qed.

(** The value of [CDF_wrt_prob] when the samples have at most as many
    columns as the grid. *)
Lemma CDF_wrt_prob_entries
      (self : Gradient F Srom T) (samples : ndarray2 F) (probs : list F)
      (size dim grid_pts width : nat) :
  has_shape samples size dim ->
  has_shape (_x_grid self) grid_pts width ->
  has_shape (srom_compute_CDF (_SROM self) (_x_grid self)) grid_pts width ->
  has_shape (target_compute_CDF (_target self) (_x_grid self)) grid_pts width ->
  dim <= width ->
  CDF_wrt_prob self samples probs = Ok (map (CDF_term_spec self samples) (seq 0 size)).
Proof.
  intros Hs Hg Ha Hb Hle. unfold CDF_wrt_prob.
  rewrite (rel_diffs_same _ _ grid_pts width Ha Hb). cbn [bind].
  pose proof Hs as (Hsr & Hsc & Hsl). rewrite Hsr, Hsc.
  apply mapM_pure. intros k Hk. apply in_seq in Hk.
  rewrite (row_entries samples size dim k Hs) by lia. cbn [bind].
  rewrite (CDF_dimension_loop _ _ _ grid_pts width)
    by (auto using tabulate2_shape; rewrite length_map, length_seq; lia).
  f_equal. unfold CDF_term_spec. rewrite Hsc.
  destruct Hg as (Hgr & _ & _). rewrite Hgr.
  etransitivity; [|symmetry; apply np_sum_map_fold].
  apply fold_left_ext_in.
  intros acc i Hi. apply in_seq in Hi.
  rewrite nth_map_seq by lia. do 2 f_equal.
  apply map_ext_in. intros g Hin. apply filter_In in Hin as [Hin _].
  apply in_seq in Hin. apply at2_tabulate2; lia.
Qed.

(** X1: [CDF_wrt_prob] never compares the dimension of the samples with the
    width of the grid.  For at least one sample and a grid, with CDF
    matrices of its shape, [width] columns wide: samples with at most
    [width] columns are accepted (the columns of the grid beyond [dim] are
    not read), and samples with more columns raise [IndexError]. *)
Theorem CDF_wrt_prob_grid_width
    (self : Gradient F Srom T) (samples : ndarray2 F) (probs : list F)
    (size dim grid_pts width : nat) :
  has_shape samples size dim -> 0 < size ->
  has_shape (_x_grid self) grid_pts width ->
  has_shape (srom_compute_CDF (_SROM self) (_x_grid self)) grid_pts width ->
  has_shape (target_compute_CDF (_target self) (_x_grid self)) grid_pts width ->
  CDF_wrt_prob self samples probs
  = if dim <=? width then Ok (map (CDF_term_spec self samples) (seq 0 size))
    else Raise IndexError.
Proof.
  intros Hs Hsize Hg Ha Hb.
  destruct (Nat.leb_spec dim width) as [Hle|Hlt].
  - now apply (CDF_wrt_prob_entries self samples probs size dim grid_pts width).
  - unfold CDF_wrt_prob.
    rewrite (rel_diffs_same _ _ grid_pts width Ha Hb). cbn [bind].
    pose proof Hs as (Hsr & Hsc & Hsl). rewrite Hsr, Hsc.
    destruct size as [|size]; [lia|]. cbn [seq mapM].
    rewrite (row_entries samples (S size) dim 0 Hs) by lia. cbn [bind].
    assert (Hseq : seq 0 dim = seq 0 width ++ seq width (dim - width))
      by (rewrite <- seq_app; f_equal; lia).
    rewrite Hseq, foldM_app.
    rewrite (CDF_dimension_loop _ _ _ grid_pts width)
      by (auto using tabulate2_shape; rewrite length_map, <- Hseq, length_seq; lia).
    cbn [bind].
    destruct (dim - width) as [|extra] eqn:E; [lia|]. cbn [seq foldM Nat.add].
    unfold col at 1. destruct Hg as (_ & Hgc & _). rewrite Hgc, Nat.ltb_irrefl.
    reflexivity.
Qed.

(** X2: the entry of [CDF_wrt_prob] for a sample depends on the sample only
    through the outcomes of the comparisons [grid[g, i] >= sample[i]]: two
    samples, of one sample matrix or of two, that compare alike with every
    grid value get the same entry. *)
Theorem CDF_wrt_prob_piecewise_constant
    (self : Gradient F Srom T) (samples samples' : ndarray2 F) (probs probs' : list F)
    (size size' dim grid_pts k k' : nat) :
  has_shape samples size dim -> has_shape samples' size' dim ->
  has_shape (_x_grid self) grid_pts dim ->
  has_shape (srom_compute_CDF (_SROM self) (_x_grid self)) grid_pts dim ->
  has_shape (target_compute_CDF (_target self) (_x_grid self)) grid_pts dim ->
  k < size -> k' < size' ->
  (forall g i, g < grid_pts -> i < dim ->
     fgeb (at2 (_x_grid self) g i) (at2 samples k i)
     = fgeb (at2 (_x_grid self) g i) (at2 samples' k' i)) ->
  exists c c',
    CDF_wrt_prob self samples probs = Ok c /\
    CDF_wrt_prob self samples' probs' = Ok c' /\
    nth k c fzero = nth k' c' fzero.
Proof.
  intros Hs Hs' Hg Ha Hb Hk Hk' Hsame.
  eexists. eexists.
  split; [apply (CDF_wrt_prob_entries self samples probs size dim grid_pts dim); auto|].
  split; [apply (CDF_wrt_prob_entries self samples' probs' size' dim grid_pts dim); auto|].
  rewrite !nth_map_seq by assumption.
  unfold CDF_term_spec.
  destruct Hs as (_ & -> & _), Hs' as (_ & -> & _), Hg as (-> & _ & _).
  f_equal. apply map_ext_in. intros i Hi. apply in_seq in Hi.
  do 2 f_equal. apply filter_ext_in. intros g Hin. apply in_seq in Hin.
  apply Hsame; lia.
Qed.

Lemma np_sum_zeros {A : Type} (l : list A) :
  fadd fzero fzero = fzero -> np_sum (map (fun _ => fzero) l) = fzero.
Proof.
  intros H00. unfold np_sum. induction l as [|x l IH]; simpl; [reflexivity|].
  now rewrite H00.
Qed.

(** X3: a sample that no grid value reaches (every comparison
    [grid[g, i] >= sample[i]] is false) gets the entry zero from
    [CDF_wrt_prob], whatever the CDF matrices hold, as soon as
    [0 + 0 = 0]. *)
Theorem CDF_wrt_prob_beyond_grid
    (self : Gradient F Srom T) (samples : ndarray2 F) (probs : list F)
    (size dim grid_pts k : nat) :
  fadd fzero fzero = fzero ->
  has_shape samples size dim ->
  has_shape (_x_grid self) grid_pts dim ->
  has_shape (srom_compute_CDF (_SROM self) (_x_grid self)) grid_pts dim ->
  has_shape (target_compute_CDF (_target self) (_x_grid self)) grid_pts dim ->
  k < size ->
  (forall g i, g < grid_pts -> i < dim ->
     fgeb (at2 (_x_grid self) g i) (at2 samples k i) = false) ->
  exists c, CDF_wrt_prob self samples probs = Ok c /\ nth k c fzero = fzero.
Proof.
  intros H00 Hs Hg Ha Hb Hk Hnone.
  eexists.
  split; [apply (CDF_wrt_prob_entries self samples probs size dim grid_pts dim); auto|].
  rewrite nth_map_seq by assumption.
  unfold CDF_term_spec.
  destruct Hs as (_ & -> & _), Hg as (-> & _ & _).
  rewrite <- (np_sum_zeros (seq 0 dim) H00). f_equal.
  apply map_ext_in. intros i Hi. apply in_seq in Hi.
  rewrite (filter_ext_in _ (fun _ => false)).
  - clear. induction (seq 0 grid_pts); simpl; auto.
  - intros g Hin. apply in_seq in Hin. apply Hnone; lia.
Qed.

End TermEdges.

Section TermEdges2.
Context {F : Type} `{Scalar F}.
Context {Srom : Type} `{SROMModel F Srom}.
Context {T : Type} `{TargetRV F T}.

Lemma foldM_raise_first {A : Type} (f : A -> nat -> res A) (n : nat) (a : A) (e : exn) :
  0 < n -> f a 0 = Raise e -> foldM f (seq 0 n) a = Raise e.
Proof.
  intros Hn Hf. destruct n as [|n]; [lia|]. cbn [seq foldM]. now rewrite Hf.
Qed.

Lemma mapM_raise_first {B : Type} (f : nat -> res B) (n : nat) (e : exn) :
  0 < n -> f 0 = Raise e -> mapM f (seq 0 n) = Raise e.
Proof.
  intros Hn Hf. destruct n as [|n]; [lia|]. cbn [seq mapM]. now rewrite Hf.
Qed.

(** The loop over the moment orders in [ql], all of them rows of [diffs]. *)
Lemma moment_loop (samples diffs : ndarray2 F) (size dim rows : nat) (ql : list nat) :
  has_shape samples size dim -> has_shape diffs rows dim ->
  (forall q, In q ql -> q < rows) ->
  forall grad, length grad = size ->
  foldM (fun grad q =>
           let samples_q := map (fun x => fpow x (q + 1)) (flat samples) in
           diffs_q <- row diffs q ;;
           let diffs_tiled := np_tile diffs_q size in
           diffs_samples_q <- broadcast1 fmul samples_q diffs_tiled ;;
           reshaped <- reshape diffs_samples_q size dim ;;
           iadd grad (sum_axis1 reshaped)) ql grad
  = Ok (map (fun k =>
               fold_left (fun acc q => fadd acc (moment_row_sum samples diffs dim k q))
                         ql (nth k grad fzero))
            (seq 0 size)).
Proof.
  intros Hs Hd. induction ql as [|q ql IH]; intros Hql grad Hgrad; cbn [foldM fold_left].
  - f_equal. rewrite <- Hgrad. symmetry. apply map_nth_seq.
  - cbv zeta.
    rewrite (moment_pass samples diffs grad size dim rows q)
      by (auto; apply Hql; now left).
    cbn [bind]. cbv zeta in IH. rewrite IH.
    + f_equal. apply map_ext_in. intros k Hk. apply in_seq in Hk.
      now rewrite nth_map_seq by lia.
    + intros q' Hq'. apply Hql. now right.
    + now rewrite length_map, length_seq.
Qed.

(** The value of [moment_wrt_prob] when the moment matrices have at least
    [max_moment] rows. *)
Lemma moment_wrt_prob_entries
      (self : Gradient F Srom T) (samples : ndarray2 F) (probs : list F)
      (size dim rows : nat) :
  has_shape samples size dim ->
  has_shape (srom_compute_moments (_SROM self) (_max_moment self)) rows dim ->
  has_shape (target_compute_moments (_target self) (_max_moment self)) rows dim ->
  _max_moment self <= rows ->
  moment_wrt_prob self samples probs = Ok (moment_wrt_prob_naive self samples).
Proof.
  intros Hs Ha Hb Hle. unfold moment_wrt_prob, moment_wrt_prob_naive.
  rewrite (rel_diffs_same _ _ rows dim Ha Hb). cbn [bind].
  pose proof Hs as (Hsr & Hsc & Hsl). rewrite Hsr, Hsc.
  rewrite (moment_loop samples _ size dim rows)
    by (auto using tabulate2_shape, length_np_zeros; intros q Hq; apply in_seq in Hq; lia).
  f_equal. apply map_ext_in. intros k Hk.
  rewrite nth_np_zeros.
  rewrite <- (seq_shift (_max_moment self) 0), map_map.
  etransitivity; [|symmetry; apply np_sum_map_fold].
  apply fold_left_ext_in. intros acc q Hq. apply in_seq in Hq. f_equal.
  unfold moment_row_sum. f_equal. apply map_ext_in. intros i Hi. apply in_seq in Hi.
  replace (S q) with (q + 1) by lia.
  replace (q + 1 - 1) with q by lia.
  f_equal. apply at2_tabulate2; lia.
Qed.

(** X4: [moment_wrt_prob] reads the rows [0 .. max_moment - 1] of the
    moment matrices and nothing else of their height: with matrices of
    [rows] rows it returns the reference value when [max_moment <= rows]
    (further rows are ignored) and raises [IndexError] when
    [max_moment > rows]. *)
Theorem moment_wrt_prob_matrix_rows
    (self : Gradient F Srom T) (samples : ndarray2 F) (probs : list F)
    (size dim rows : nat) :
  has_shape samples size dim ->
  has_shape (srom_compute_moments (_SROM self) (_max_moment self)) rows dim ->
  has_shape (target_compute_moments (_target self) (_max_moment self)) rows dim ->
  moment_wrt_prob self samples probs
  = if _max_moment self <=? rows then Ok (moment_wrt_prob_naive self samples)
    else Raise IndexError.
Proof.
  intros Hs Ha Hb.
  destruct (Nat.leb_spec (_max_moment self) rows) as [Hle|Hlt].
  - now apply (moment_wrt_prob_entries self samples probs size dim rows).
  - unfold moment_wrt_prob.
    rewrite (rel_diffs_same _ _ rows dim Ha Hb). cbn [bind].
    pose proof Hs as (Hsr & Hsc & Hsl). rewrite Hsr, Hsc.
    assert (Hseq : seq 0 (_max_moment self)
                   = seq 0 rows ++ seq rows (_max_moment self - rows))
      by (rewrite <- seq_app; f_equal; lia).
    rewrite Hseq, foldM_app.
    rewrite (moment_loop samples _ size dim rows)
      by (auto using tabulate2_shape, length_np_zeros; intros q Hq; apply in_seq in Hq; lia).
    cbn [bind].
    destruct (_max_moment self - rows) as [|extra] eqn:E; [lia|].
    cbn [seq foldM]. cbv zeta. unfold row at 1. cbn [nrows tabulate2].
    now rewrite Nat.ltb_irrefl.
Qed.

(** X5: moment matrices whose width differs from the dimension of the
    samples make [moment_wrt_prob] raise [ValueError] in the elementwise
    product, for two or more samples and at least one moment order. *)
Theorem moment_wrt_prob_width_mismatch
    (self : Gradient F Srom T) (samples : ndarray2 F) (probs : list F)
    (size dim rows width : nat) :
  has_shape samples size dim -> 2 <= size ->
  has_shape (srom_compute_moments (_SROM self) (_max_moment self)) rows width ->
  has_shape (target_compute_moments (_target self) (_max_moment self)) rows width ->
  0 < _max_moment self -> 0 < rows -> width <> dim ->
  moment_wrt_prob self samples probs
  = Raise (ValueError "operands could not be broadcast together").
Proof.
  intros Hs Hsize Ha Hb Hmm Hrows Hne. unfold moment_wrt_prob.
  rewrite (rel_diffs_same _ _ rows width Ha Hb). cbn [bind].
  destruct Hs as (Hsr & Hsc & Hsl). rewrite Hsr, Hsc.
  destruct (_max_moment self) as [|mm]; [lia|]. cbn [seq foldM]. cbv zeta.
  rewrite (row_entries _ rows width 0 (tabulate2_shape _ _ _)) by lia.
  cbn [bind]. unfold broadcast1.
  rewrite length_map, length_np_tile, length_map, length_seq, Hsl.
  unfold bdim.
  destruct (Nat.eqb_spec (size * dim) (size * width)) as [E|_];
    [apply Nat.mul_cancel_l in E; [congruence|lia]|].
  destruct (Nat.eqb_spec (size * dim) 1) as [E|_];
    [apply Nat.eq_mul_1 in E; lia|].
  destruct (Nat.eqb_spec (size * width) 1) as [E|_];
    [apply Nat.eq_mul_1 in E; lia|].
  reflexivity.
Qed.

(** The value of [corr_wrt_prob] when the correlation matrices have at
    least [dim] rows and columns. *)
Lemma corr_wrt_prob_entries
      (self : Gradient F Srom T) (samples : ndarray2 F) (probs : list F)
      (size dim width : nat) :
  has_shape samples size dim -> dim <> 1 ->
  has_shape (srom_compute_corr_mat (_SROM self)) width width ->
  has_shape (target_compute_corr_mat (_target self)) width width ->
  dim <= width ->
  corr_wrt_prob self samples probs = Ok (map (corr_term_spec self samples) (seq 0 size)).
Proof.
  intros Hs Hd Ha Hb Hle. unfold corr_wrt_prob.
  pose proof Hs as (Hsr & Hsc & Hsl). rewrite Hsr, Hsc.
  destruct (Nat.eqb_spec dim 1) as [|_]; [contradiction|].
  rewrite (rel_diffs_same _ _ width width Ha Hb). cbn [bind].
  set (a := srom_compute_corr_mat (_SROM self)).
  set (b := target_compute_corr_mat (_target self)).
  apply mapM_pure. intros k Hk. apply in_seq in Hk.
  rewrite (row_entries samples size dim k Hs) by lia. cbn [bind].
  unfold corr_term_spec. rewrite Hsc. fold a b.
  set (term := fun i j =>
         fmul (fmul (rel_diff_at a b i j) (at2 samples k i)) (at2 samples k j)).
  rewrite (foldM_pure _
    (fun acc i => fold_left (fun acc j => fadd acc (term i j)) (seq 0 dim) acc)).
  - f_equal. unfold np_sum. apply (fold_left_pairs fadd term).
  - intros acc i Hi. apply in_seq in Hi.
    apply foldM_pure. intros acc' j Hj. apply in_seq in Hj.
    rewrite (get2_entry _ width width) by (try apply tabulate2_shape; lia).
    cbn [bind]. rewrite !lookup_map_seq by lia. cbn [bind].
    unfold term. now rewrite at2_tabulate2 by lia.
Qed.

(** X6: [corr_wrt_prob] does not compare the dimension of the samples with
    the size of the correlation matrices.  For at least one sample of
    dimension other than 1 and [width x width] matrices: with
    [dim <= width] the leading [dim x dim] block is used, with
    [dim > width] the call raises [IndexError]. *)
Theorem corr_wrt_prob_matrix_width
    (self : Gradient F Srom T) (samples : ndarray2 F) (probs : list F)
    (size dim width : nat) :
  has_shape samples size dim -> 0 < size -> dim <> 1 ->
  has_shape (srom_compute_corr_mat (_SROM self)) width width ->
  has_shape (target_compute_corr_mat (_target self)) width width ->
  corr_wrt_prob self samples probs
  = if dim <=? width then Ok (map (corr_term_spec self samples) (seq 0 size))
    else Raise IndexError.
Proof.
  intros Hs Hsize Hd Ha Hb.
  destruct (Nat.leb_spec dim width) as [Hle|Hlt].
  - now apply (corr_wrt_prob_entries self samples probs size dim width).
  - unfold corr_wrt_prob.
    pose proof Hs as (Hsr & Hsc & Hsl). rewrite Hsr, Hsc.
    destruct (Nat.eqb_spec dim 1) as [|_]; [contradiction|].
    rewrite (rel_diffs_same _ _ width width Ha Hb). cbn [bind].
    apply mapM_raise_first; [exact Hsize|].
    rewrite (row_entries samples size dim 0 Hs) by lia. cbn [bind].
    set (sample_k := map (fun i => at2 samples 0 i) (seq 0 dim)).
    assert (Hlen : length sample_k = dim)
      by (unfold sample_k; now rewrite length_map, length_seq).
    apply foldM_raise_first; [lia|].
    assert (Hseq : seq 0 dim = seq 0 width ++ seq width (dim - width))
      by (rewrite <- seq_app; f_equal; lia).
    rewrite Hseq, foldM_app.
    rewrite (foldM_pure _
      (fun acc j => fadd acc (fmul (fmul (rel_diff_at
                                            (srom_compute_corr_mat (_SROM self))
                                            (target_compute_corr_mat (_target self)) 0 j)
                                         (nth 0 sample_k fzero))
                                   (nth j sample_k fzero)))).
    + cbn [bind].
      destruct (dim - width) as [|extra] eqn:E; [lia|]. cbn [seq foldM].
      unfold get2 at 1. cbn [nrows ncols tabulate2].
      rewrite Nat.ltb_irrefl, andb_false_r. reflexivity.
    + intros acc j Hj. apply in_seq in Hj.
      rewrite (get2_entry _ width width) by (try apply tabulate2_shape; lia).
      cbn [bind].
      rewrite (lookup_nth sample_k 0 fzero) by lia. cbn [bind].
      rewrite (lookup_nth sample_k j fzero) by lia. cbn [bind].
      now rewrite at2_tabulate2 by lia.
Qed.

(** X7: the entries of [moment_wrt_prob] and of [corr_wrt_prob] for a
    sample depend on the samples only through the coordinates of that
    sample: equal rows, of one sample matrix or of two, get equal
    entries. *)
Theorem moment_and_corr_entry_depend_on_row
    (self : Gradient F Srom T) (samples samples' : ndarray2 F) (probs probs' : list F)
    (size size' dim k k' : nat) :
  has_shape samples size dim -> has_shape samples' size' dim ->
  has_shape (srom_compute_moments (_SROM self) (_max_moment self)) (_max_moment self) dim ->
  has_shape (target_compute_moments (_target self) (_max_moment self)) (_max_moment self) dim ->
  (dim <> 1 ->
   has_shape (srom_compute_corr_mat (_SROM self)) dim dim /\
   has_shape (target_compute_corr_mat (_target self)) dim dim) ->
  k < size -> k' < size' ->
  (forall i, i < dim -> at2 samples k i = at2 samples' k' i) ->
  exists m m' r r',
    moment_wrt_prob self samples probs = Ok m /\
    moment_wrt_prob self samples' probs' = Ok m' /\
    nth k m fzero = nth k' m' fzero /\
    corr_wrt_prob self samples probs = Ok r /\
    corr_wrt_prob self samples' probs' = Ok r' /\
    nth k r fzero = nth k' r' fzero.
Proof.
  intros Hs Hs' Hma Hmb Hcorr Hk Hk' Hrow.
  exists (moment_wrt_prob_naive self samples), (moment_wrt_prob_naive self samples').
  assert (Hm : nth k (moment_wrt_prob_naive self samples) fzero
               = nth k' (moment_wrt_prob_naive self samples') fzero).
  { unfold moment_wrt_prob_naive.
    destruct Hs as (-> & -> & _), Hs' as (-> & -> & _).
    rewrite !nth_map_seq by assumption.
    f_equal. apply map_ext_in. intros q _.
    f_equal. apply map_ext_in. intros i Hi. apply in_seq in Hi.
    now rewrite Hrow by lia. }
  destruct (Nat.eq_dec dim 1) as [Hone|Hne].
  - exists (np_zeros size), (np_zeros size').
    split; [now apply (moment_wrt_prob_entries self samples probs size dim (_max_moment self))|].
    split; [now apply (moment_wrt_prob_entries self samples' probs' size' dim (_max_moment self))|].
    split; [exact Hm|].
    unfold corr_wrt_prob.
    destruct Hs as (-> & -> & _), Hs' as (-> & -> & _).
    rewrite Hone. cbn [Nat.eqb].
    split; [reflexivity|]. split; [reflexivity|]. now rewrite !nth_np_zeros.
  - destruct (Hcorr Hne) as [Hca Hcb].
    exists (map (corr_term_spec self samples) (seq 0 size)),
           (map (corr_term_spec self samples') (seq 0 size')).
    split; [now apply (moment_wrt_prob_entries self samples probs size dim (_max_moment self))|].
    split; [now apply (moment_wrt_prob_entries self samples' probs' size' dim (_max_moment self))|].
    split; [exact Hm|].
    split; [now apply (corr_wrt_prob_entries self samples probs size dim dim)|].
    split; [now apply (corr_wrt_prob_entries self samples' probs' size' dim dim)|].
    rewrite !nth_map_seq by assumption. unfold corr_term_spec.
    destruct Hs as (_ & -> & _), Hs' as (_ & -> & _).
    f_equal. apply map_ext_in. intros [i j] Hin. apply in_prod_iff in Hin as [Hi Hj].
    apply in_seq in Hi, Hj. cbn [fst snd].
    now rewrite !Hrow by lia.
Qed.

End TermEdges2.

(** ** Further properties of the combined gradient *)

Section CombinationEdges.
Context {F : Type} `{Scalar F}.
Context {Srom : Type} `{SROMModel F Srom}.
Context {T : Type} `{TargetRV F T}.

Lemma broadcast1_against_one (op : F -> F -> F) (u : list F) (x : F) :
  broadcast1 op u [x] = Ok (map (fun i => op (nth i u fzero) x) (seq 0 (length u))).
Proof.
  unfold broadcast1, bdim. cbn [length].
  assert (Hn : (if length u =? 1 then Ok (length u)
                else if length u =? 1 then Ok 1
                else if 1 =? 1 then Ok (length u)
                else Raise (ValueError "operands could not be broadcast together"))
               = Ok (length u))
    by (destruct (length u =? 1); reflexivity).
  rewrite Hn. cbn [bind]. f_equal.
  apply map_ext_in. intros i Hi. apply in_seq in Hi.
  rewrite bidx_lt by lia. reflexivity.
Qed.

Lemma broadcast1_mismatch (op : F -> F -> F) (u v : list F) :
  length u <> length v -> length u <> 1 -> length v <> 1 ->
  broadcast1 op u v = Raise (ValueError "operands could not be broadcast together").
Proof.
  intros Hne Hu Hv. unfold broadcast1, bdim.
  destruct (Nat.eqb_spec (length u) (length v)); [contradiction|].
  destruct (Nat.eqb_spec (length u) 1); [contradiction|].
  destruct (Nat.eqb_spec (length v) 1); [contradiction|].
  reflexivity.
Qed.

(** X8: when the three weights are greater than zero, [gradient_wrt_probs]
    does not use the SROM's [_size]: whenever the three terms return, it
    returns their weighted sum, one entry per row of the samples, whatever
    [_size] is. *)
Theorem gradient_wrt_probs_positive_weights
    (self : Gradient F Srom T) (samples : ndarray2 F) (probs : list F)
    (w0 w1 w2 : F) (c m r : list F) :
  _weights self = [w0; w1; w2] ->
  fgtb w0 fzero = true -> fgtb w1 fzero = true -> fgtb w2 fzero = true ->
  CDF_wrt_prob self samples probs = Ok c ->
  moment_wrt_prob self samples probs = Ok m ->
  corr_wrt_prob self samples probs = Ok r ->
  gradient_wrt_probs self samples probs = Ok (weighted_sum w0 w1 w2 c m r) /\
  length (weighted_sum w0 w1 w2 c m r) = nrows samples.
Proof.
  intros Hw H0' H1' H2' Hc Hm Hr.
  pose proof (CDF_wrt_prob_length _ _ _ _ Hc) as Hlc.
  pose proof (moment_wrt_prob_length _ _ _ _ Hm) as Hlm.
  pose proof (corr_wrt_prob_length _ _ _ _ Hr) as Hlr.
  split.
  - unfold gradient_wrt_probs. rewrite Hw. cbn [lookup nth_error bind].
    rewrite H0', Hc. cbn [bind]. rewrite H1', Hm. cbn [bind]. rewrite H2', Hr. cbn [bind].
    apply combine_terms; congruence.
  - unfold weighted_sum. now rewrite length_map, length_seq.
Qed.

(** X9: when the CDF weight is greater than zero and the two others are
    not, a SROM [_size] that differs from the number of sample rows, both
    other than 1, makes [gradient_wrt_probs] raise [ValueError]: the
    computed term and the substituted zero vectors cannot be added. *)
Theorem gradient_wrt_probs_size_mismatch
    (self : Gradient F Srom T) (samples : ndarray2 F) (probs : list F)
    (w0 w1 w2 : F) (c : list F) :
  _weights self = [w0; w1; w2] ->
  fgtb w0 fzero = true -> fgtb w1 fzero = false -> fgtb w2 fzero = false ->
  CDF_wrt_prob self samples probs = Ok c ->
  nrows samples <> srom_size (_SROM self) ->
  nrows samples <> 1 -> srom_size (_SROM self) <> 1 ->
  gradient_wrt_probs self samples probs
  = Raise (ValueError "operands could not be broadcast together").
Proof.
  intros Hw H0' H1' H2' Hc Hne Hn1 Hs1.
  pose proof (CDF_wrt_prob_length _ _ _ _ Hc) as Hlc.
  unfold gradient_wrt_probs. rewrite Hw. cbn [lookup nth_error bind].
  rewrite H0', Hc. cbn [bind]. rewrite H1'. cbn [bind]. rewrite H2'. cbn [bind].
  rewrite broadcast1_mismatch; [reflexivity| | |];
    rewrite !length_scale, ?length_np_zeros; congruence.
Qed.

(** X10: a SROM [_size] of 1 is not noticed: with the CDF weight greater
    than zero and the two others not, the single substituted zero is
    broadcast over every sample row, and [gradient_wrt_probs] returns one
    entry per row, [w_cdf*c[k] + w_moment*0 + w_corr*0]. *)
Theorem gradient_wrt_probs_size_one_broadcast
    (self : Gradient F Srom T) (samples : ndarray2 F) (probs : list F)
    (w0 w1 w2 : F) (c : list F) :
  _weights self = [w0; w1; w2] ->
  fgtb w0 fzero = true -> fgtb w1 fzero = false -> fgtb w2 fzero = false ->
  CDF_wrt_prob self samples probs = Ok c ->
  srom_size (_SROM self) = 1 ->
  gradient_wrt_probs self samples probs
  = Ok (map (fun k => fadd (fadd (fmul w0 (nth k c fzero)) (fmul w1 fzero))
                           (fmul w2 fzero))
            (seq 0 (nrows samples))).
Proof.
  intros Hw H0' H1' H2' Hc Hone.
  pose proof (CDF_wrt_prob_length _ _ _ _ Hc) as Hlc.
  unfold gradient_wrt_probs. rewrite Hw, Hone. cbn [lookup nth_error bind].
  rewrite H0', Hc. cbn [bind]. rewrite H1'. cbn [bind]. rewrite H2'. cbn [bind].
  cbn [np_zeros repeat scale map].
  rewrite broadcast1_against_one. cbn [bind].
  rewrite broadcast1_against_one.
  rewrite length_map, length_seq, length_scale, Hlc. f_equal.
  apply map_ext_in. intros k Hk. apply in_seq in Hk.
  rewrite nth_map_seq by lia.
  now rewrite nth_scale by lia.
Qed.

(** X18: a term whose weight is not greater than zero, a negative weight
    as well as zero, is skipped: the value of [gradient_wrt_probs] is the
    same after any change of the evaluator, the collaborators and the
    arguments that keeps the weights, the SROM's [_size] and the values
    of the two other terms. *)
Theorem nonpositive_weight_term_is_skipped
    (self self' : Gradient F Srom T) (samples samples' : ndarray2 F)
    (probs probs' : list F) (t : nat) (w : F) :
  t < 3 ->
  lookup (_weights self) t = Ok w ->
  fgtb w fzero = false ->
  _weights self' = _weights self ->
  srom_size (_SROM self') = srom_size (_SROM self) ->
  (forall u, u < 3 -> u <> t ->
     term_fun u self' samples' probs' = term_fun u self samples probs) ->
  gradient_wrt_probs self' samples' probs' = gradient_wrt_probs self samples probs.
Proof.
  intros Ht Hw Hneg Hweights Hsize Hothers.
  assert (Hcdf : t <> 0 ->
            CDF_wrt_prob self' samples' probs' = CDF_wrt_prob self samples probs)
    by (intros; apply (Hothers 0); lia).
  assert (Hmom : t <> 1 ->
            moment_wrt_prob self' samples' probs' = moment_wrt_prob self samples probs)
    by (intros; apply (Hothers 1); lia).
  assert (Hcor : t <> 2 ->
            corr_wrt_prob self' samples' probs' = corr_wrt_prob self samples probs)
    by (intros; apply (Hothers 2); lia).
  unfold gradient_wrt_probs. rewrite Hweights, Hsize.
  destruct t as [|[|[|t]]]; [| | |lia];
    rewrite Hw; cbn [bind]; rewrite Hneg.
  - rewrite Hmom, Hcor by lia. reflexivity.
  - rewrite Hcdf, Hcor by lia. reflexivity.
  - rewrite Hcdf, Hmom by lia. reflexivity.
Qed.

(** X12: skipping a term whose weight is not greater than zero gives what
    computing it would give whenever weighting the computed term gives
    the same products as weighting zeros: if, for each term, its weight
    is greater than zero or [w * term[k] = w * 0] for every [k], the
    SROM's [_size] is the number of sample rows and the three terms
    return, [gradient_wrt_probs] returns their weighted sum. *)
Theorem gradient_wrt_probs_skip_equals_compute
    (self : Gradient F Srom T) (samples : ndarray2 F) (probs : list F)
    (w0 w1 w2 : F) (c m r : list F) :
  _weights self = [w0; w1; w2] ->
  srom_size (_SROM self) = nrows samples ->
  (fgtb w0 fzero = true \/ forall k, fmul w0 (nth k c fzero) = fmul w0 fzero) ->
  (fgtb w1 fzero = true \/ forall k, fmul w1 (nth k m fzero) = fmul w1 fzero) ->
  (fgtb w2 fzero = true \/ forall k, fmul w2 (nth k r fzero) = fmul w2 fzero) ->
  CDF_wrt_prob self samples probs = Ok c ->
  moment_wrt_prob self samples probs = Ok m ->
  corr_wrt_prob self samples probs = Ok r ->
  gradient_wrt_probs self samples probs = Ok (weighted_sum w0 w1 w2 c m r).
Proof.
  intros Hw Hsize H0' H1' H2' Hc Hm Hr.
  pose proof (CDF_wrt_prob_length _ _ _ _ Hc) as Hlc.
  pose proof (moment_wrt_prob_length _ _ _ _ Hm) as Hlm.
  pose proof (corr_wrt_prob_length _ _ _ _ Hr) as Hlr.
  set (size := nrows samples) in *.
  assert (Hguard : forall w v k,
             (fgtb w fzero = true \/ forall k, fmul w (nth k v fzero) = fmul w fzero) ->
             fmul w (nth k (guarded w v size) fzero) = fmul w (nth k v fzero)).
  { intros w v k Hwv. unfold guarded.
    destruct (fgtb w fzero) eqn:Hpos; [reflexivity|].
    destruct Hwv as [Hwv|Hwv]; [discriminate|].
    now rewrite nth_np_zeros, Hwv. }
  unfold gradient_wrt_probs. rewrite Hw, Hsize, Hc, Hm, Hr.
  cbn [lookup nth_error bind]. fold size.
  replace (if fgtb w0 fzero then Ok c else Ok (np_zeros size))
    with (Ok (guarded w0 c size)) by (unfold guarded; now destruct (fgtb w0 fzero)).
  replace (if fgtb w1 fzero then Ok m else Ok (np_zeros size))
    with (Ok (guarded w1 m size)) by (unfold guarded; now destruct (fgtb w1 fzero)).
  replace (if fgtb w2 fzero then Ok r else Ok (np_zeros size))
    with (Ok (guarded w2 r size)) by (unfold guarded; now destruct (fgtb w2 fzero)).
  cbn [bind].
  rewrite combine_terms by (now rewrite !length_guarded).
  f_equal. unfold weighted_sum. rewrite length_guarded, Hlc by assumption.
  apply map_ext. intros k. now rewrite !Hguard.
Qed.

End CombinationEdges.

Section ExactCombination.
Context {F : Type} `{ExactField F}.
Context {Srom : Type} `{SROMModel F Srom}.
Context {T : Type} `{TargetRV F T}.

Add Field exact_combination_tactics : exact_field.

Lemma weighted_sum_zeros (w0 w1 w2 : F) (n : nat) :
  weighted_sum w0 w1 w2 (np_zeros n) (np_zeros n) (np_zeros n) = np_zeros n.
Proof.
  unfold weighted_sum. rewrite length_np_zeros.
  transitivity (map (fun _ : nat => fzero) (seq 0 n)).
  - apply map_ext. intros k. rewrite !nth_np_zeros. ring.
  - unfold np_zeros. generalize 0.
    induction n as [|n IH]; intros s; simpl; [reflexivity|].
    now rewrite IH.
Qed.

(** X11: in exact arithmetic, when no weight is greater than zero,
    [gradient_wrt_probs] returns the zero vector of length [_size] for
    every sample matrix and probability vector: no statistic of the
    collaborators is read and nothing is raised. *)
Theorem gradient_wrt_probs_no_positive_weight
    (self : Gradient F Srom T) (samples : ndarray2 F) (probs : list F) (w0 w1 w2 : F) :
  _weights self = [w0; w1; w2] ->
  fgtb w0 fzero = false -> fgtb w1 fzero = false -> fgtb w2 fzero = false ->
  gradient_wrt_probs self samples probs = Ok (np_zeros (srom_size (_SROM self))).
Proof.
  intros Hw H0' H1' H2'.
  unfold gradient_wrt_probs. rewrite Hw. cbn [lookup nth_error bind].
  rewrite H0'. cbn [bind]. rewrite H1'. cbn [bind]. rewrite H2'. cbn [bind].
  rewrite combine_terms by reflexivity. f_equal. apply weighted_sum_zeros.
Qed.

(** X19: in exact arithmetic, when no weight is greater than zero,
    [evaluate] still pushes [(samples, probs)] into the SROM model, and the
    zero vector it returns has the [_size] the model has after
    [set_params]. *)
Theorem evaluate_no_positive_weight
    (self : Gradient F Srom T) (samples : ndarray2 F) (probs : list F) (w0 w1 w2 : F) :
  _weights self = [w0; w1; w2] ->
  fgtb w0 fzero = false -> fgtb w1 fzero = false -> fgtb w2 fzero = false ->
  _SROM (fst (evaluate self samples probs)) = set_params (_SROM self) samples probs /\
  snd (evaluate self samples probs)
  = Ok (np_zeros (srom_size (set_params (_SROM self) samples probs))).
Proof.
  intros Hw H0' H1' H2'. split; [reflexivity|].
  unfold evaluate. cbn [snd]. unfold gradient_wrt_probs.
  cbn [set_SROM _SROM _weights]. rewrite Hw. cbn [lookup nth_error bind].
  rewrite H0'. cbn [bind]. rewrite H1'. cbn [bind]. rewrite H2'. cbn [bind].
  rewrite combine_terms by reflexivity. f_equal. apply weighted_sum_zeros.
Qed.

End ExactCombination.

(** ** Further properties of the construction *)

(** The upper-case form of an accepted metric is the metric itself. *)
Lemma upper_of_metric (m : string) :
  str_in m ["MEAN"; "MAX"; "SSE"]%string = true -> upper m = m.
Proof.
  unfold str_in. cbn [existsb]. intros Hin.
  apply orb_true_iff in Hin as [Hin|Hin]; [apply String.eqb_eq in Hin; now subst|].
  apply orb_true_iff in Hin as [Hin|Hin]; [apply String.eqb_eq in Hin; now subst|].
  apply orb_true_iff in Hin as [Hin|Hin]; [apply String.eqb_eq in Hin; now subst|].
  discriminate.
Qed.

Section ConstructionEdges.
Context {F : Type} `{Scalar F}.
Context {Srom : Type} `{SROMModel F Srom}.
Context {T : Type} `{TargetRV F T}.

Lemma set_col_shape (m m' : ndarray2 F) (c : nat) (v : list F) :
  set_col m c v = Ok m' -> has_shape m' (nrows m) (ncols m).
Proof.
  unfold set_col. destruct (c <? ncols m); [|discriminate].
  destruct ((length v =? nrows m) || (length v =? 1)); [|discriminate].
  intros [= <-]. apply tabulate2_shape.
Qed.

(** A grid that [generate_cdf_grids] returns has [cdf_grid_pts] rows and
    one column per dimension. *)
Lemma generate_cdf_grids_shape (target : T) (cdf_grid_pts : nat) (x_grid : ndarray2 F) :
  generate_cdf_grids target cdf_grid_pts = Ok x_grid ->
  has_shape x_grid cdf_grid_pts (target_dim target).
Proof.
  unfold generate_cdf_grids. intros Hgen.
  apply (foldM_invariant (fun g => has_shape g cdf_grid_pts (target_dim target)))
    in Hgen; [exact Hgen| |apply np_zeros2_shape].
  intros g i g' (Hr & Hc & _) Hstep.
  apply bind_Ok_inv in Hstep as (lo & _ & Hstep).
  apply bind_Ok_inv in Hstep as (hi & _ & Hstep).
  apply set_col_shape in Hstep. now rewrite Hr, Hc in Hstep.
Qed.

(** The first [d] columns can be written when the first [d] bounds
    exist. *)
Lemma generate_cdf_grids_partial (target : T) (cdf_grid_pts d : nat) :
  d <= target_dim target ->
  d <= length (target_mins target) -> d <= length (target_maxs target) ->
  exists x_grid,
    foldM (fun x_grid i =>
             lo <- lookup (target_mins target) i ;;
             hi <- lookup (target_maxs target) i ;;
             set_col x_grid i (np_linspace lo hi cdf_grid_pts))
          (seq 0 d) (np_zeros2 cdf_grid_pts (target_dim target)) = Ok x_grid /\
    has_shape x_grid cdf_grid_pts (target_dim target).
Proof.
  induction d as [|d IH]; intros Hd Hlo Hhi.
  - eexists. split; [reflexivity|apply np_zeros2_shape].
  - destruct IH as (xg & Hfold & Hr & Hc & Hl); [lia..|].
    rewrite seq_S, foldM_app, Hfold. cbn [bind Nat.add foldM].
    rewrite (lookup_nth _ _ fzero) by lia. cbn [bind].
    rewrite (lookup_nth _ _ fzero) by lia. cbn [bind].
    unfold set_col. rewrite Hr, Hc, length_np_linspace, Nat.eqb_refl.
    destruct (Nat.ltb_spec d (target_dim target)); [|lia]. cbn [orb].
    eexists. split; [reflexivity|apply tabulate2_shape].
Qed.

Lemma lookup_out_of_range {A : Type} (l : list A) (i : nat) :
  length l <= i -> lookup l i = Raise IndexError.
Proof.
  intros Hi. unfold lookup. apply nth_error_None in Hi. now rewrite Hi.
Qed.

(** X13: a target with fewer lower or upper bounds than dimensions makes
    [generate_cdf_grids] raise [IndexError], and so the constructor, before
    it looks at [obj_weights] and [error]. *)
Theorem generate_cdf_grids_missing_bound
    (SROM : Srom) (target : T) (obj_weights : option (list F)) (error : string)
    (max_moment cdf_grid_pts : nat) :
  ~ bounded target ->
  generate_cdf_grids target cdf_grid_pts = Raise IndexError /\
  init SROM target obj_weights error max_moment cdf_grid_pts = Raise IndexError.
Proof.
  intros Hnb.
  assert (Hgen : generate_cdf_grids target cdf_grid_pts = Raise IndexError).
  { unfold bounded in Hnb. unfold generate_cdf_grids.
    set (d := Nat.min (length (target_mins target)) (length (target_maxs target))).
    assert (Hd : d < target_dim target) by lia.
    assert (Hseq : seq 0 (target_dim target)
                   = seq 0 d ++ seq d (target_dim target - d))
      by (rewrite <- seq_app; f_equal; lia).
    destruct (generate_cdf_grids_partial target cdf_grid_pts d) as (xg & Hfold & _);
      [lia..|].
    rewrite Hseq, foldM_app, Hfold. cbn [bind].
    destruct (target_dim target - d) as [|rest] eqn:E; [lia|]. cbn [seq foldM].
    destruct (Nat.le_gt_cases (length (target_mins target)) d) as [Hlo|Hlo].
    - now rewrite (lookup_out_of_range _ _ Hlo).
    - rewrite (lookup_nth _ _ fzero Hlo). cbn [bind].
      rewrite lookup_out_of_range by lia. reflexivity. }
  split; [exact Hgen|]. unfold init. now rewrite Hgen.
Qed.

(** X14: an evaluator that the constructor returns holds the arguments it
    was given, exactly three weights (the given ones, or three ones), the
    upper-case form of [error], which is one of "MEAN", "MAX", "SSE", and
    the grid of [generate_cdf_grids], of shape [cdf_grid_pts x dim]. *)
Theorem init_stores_configuration
    (SROM : Srom) (targetRV : T) (obj_weights : option (list F)) (error : string)
    (max_moment cdf_grid_pts : nat) (g : Gradient F Srom T) :
  init SROM targetRV obj_weights error max_moment cdf_grid_pts = Ok g ->
  _SROM g = SROM /\ _target g = targetRV /\ _max_moment g = max_moment /\
  _weights g = match obj_weights with Some w => w | None => [fone; fone; fone] end /\
  length (_weights g) = 3 /\
  _metric g = upper error /\ In (_metric g) ["MEAN"; "MAX"; "SSE"]%string /\
  generate_cdf_grids targetRV cdf_grid_pts = Ok (_x_grid g) /\
  has_shape (_x_grid g) cdf_grid_pts (target_dim targetRV).
Proof.
  unfold init. intros Hinit.
  apply bind_Ok_inv in Hinit as (xg & Hgen & Hinit).
  apply bind_Ok_inv in Hinit as (w & Hw & Hinit).
  destruct (str_in (upper error) metrics) eqn:Hin; [|discriminate].
  cbn [negb] in Hinit. injection Hinit as <-. cbn.
  assert (Hweights : w = match obj_weights with Some w => w | None => [fone; fone; fone] end
                     /\ length w = 3).
  { destruct obj_weights as [w'|].
    - destruct (Nat.eqb_spec (length w') 3) as [E|E]; [|discriminate].
      cbn [negb] in Hw. injection Hw as <-. now split.
    - injection Hw as <-. now split. }
  destruct Hweights as [Hwv Hwl].
  assert (Hmetric : In (upper error) ["MEAN"; "MAX"; "SSE"]%string).
  { unfold str_in in Hin. apply existsb_exists in Hin as (name & Hname & Heq).
    apply String.eqb_eq in Heq. now rewrite Heq. }
  pose proof (generate_cdf_grids_shape _ _ _ Hgen) as Hshape.
  repeat (split; [first [reflexivity | assumption]|]). exact Hshape.
Qed.

(** X15: constructing again from what an evaluator holds (its SROM, target,
    weights, metric and [max_moment], with the same number of grid points)
    returns the same evaluator: the stored metric is already upper case and
    the stored weights pass the length check. *)
Theorem init_from_stored_configuration
    (SROM : Srom) (targetRV : T) (obj_weights : option (list F)) (error : string)
    (max_moment cdf_grid_pts : nat) (g : Gradient F Srom T) :
  init SROM targetRV obj_weights error max_moment cdf_grid_pts = Ok g ->
  init (_SROM g) (_target g) (Some (_weights g)) (_metric g) (_max_moment g) cdf_grid_pts
  = Ok g.
Proof.
  unfold init. intros Hinit.
  apply bind_Ok_inv in Hinit as (xg & Hgen & Hinit).
  apply bind_Ok_inv in Hinit as (w & Hw & Hinit).
  destruct (str_in (upper error) metrics) eqn:Hin; [|discriminate].
  cbn [negb] in Hinit. injection Hinit as <-. cbn [_SROM _target _weights _metric _max_moment].
  rewrite Hgen. cbn [bind].
  assert (Hwl : length w = 3).
  { destruct obj_weights as [w'|].
    - destruct (Nat.eqb_spec (length w') 3) as [E|E]; [|discriminate].
      cbn [negb] in Hw. now injection Hw as <-.
    - now injection Hw as <-. }
  rewrite Hwl. cbn [Nat.eqb negb bind].
  now rewrite (upper_of_metric _ Hin), Hin.
Qed.

End ConstructionEdges.

Section ExactGridEdges.
Context {F : Type} `{ExactField F}.
Context {T : Type} `{TargetRV F T}.

Add Field exact_grid_edges_tactics : exact_field.

(** X16: in exact arithmetic, a grid built with a single point holds the
    lower bound of each dimension, and a grid built with no point has
    empty columns; the upper bounds are not used. *)
Theorem generate_cdf_grids_few_points (target : T) :
  bounded target ->
  (exists x_grid,
     generate_cdf_grids target 0 = Ok x_grid /\
     forall i, i < target_dim target -> col x_grid i = Ok []) /\
  (exists x_grid,
     generate_cdf_grids target 1 = Ok x_grid /\
     forall i, i < target_dim target ->
       col x_grid i = Ok [nth i (target_mins target) fzero]).
Proof.
  intros Hb. split.
  - destruct (generate_cdf_grids_columns target 0 Hb) as (xg & Hgen & _ & Hcols).
    exists xg. split; [exact Hgen|]. intros i Hi. now rewrite (Hcols i Hi).
  - destruct (generate_cdf_grids_columns target 1 Hb) as (xg & Hgen & _ & Hcols).
    exists xg. split; [exact Hgen|]. intros i Hi. rewrite (Hcols i Hi).
    unfold np_linspace. cbn. rewrite of_nat_O. do 2 f_equal. ring.
Qed.

(** X17: in exact arithmetic, for a target with a bound per dimension and
    [N >= 2] points, the grid entry in row [r] and column [i] is
    [a_i + r * (b_i - a_i) / (N - 1)]. *)
Theorem generate_cdf_grids_closed_form (target : T) (N : nat) :
  bounded target -> 2 <= N ->
  exists x_grid,
    generate_cdf_grids target N = Ok x_grid /\
    forall r i, r < N -> i < target_dim target ->
      get2 x_grid r i
      = Ok (fadd (nth i (target_mins target) fzero)
                 (fmul (of_nat r)
                       (fdiv (fsub (nth i (target_maxs target) fzero)
                                   (nth i (target_mins target) fzero))
                             (of_nat (N - 1))))).
Proof.
  intros Hb HN.
  destruct (generate_cdf_grids_columns target N Hb) as (xg & Hgen & Hshape & Hcols).
  exists xg. split; [exact Hgen|]. intros r i Hr Hi.
  rewrite (get2_entry xg N (target_dim target)) by assumption. f_equal.
  pose proof (Hcols i Hi) as Hcol.
  rewrite (col_entries xg N (target_dim target) i Hshape Hi) in Hcol.
  injection Hcol as Hcol.
  apply (f_equal (fun l => nth r l fzero)) in Hcol.
  rewrite nth_map_seq in Hcol by assumption. rewrite Hcol.
  destruct N as [|[|n]]; [lia|lia|].
  replace (S (S n) - 1) with (S n) by lia.
  pose proof (of_nat_S_nonzero n) as Hnz.
  destruct (Nat.eq_dec r (S n)) as [->|Hne].
  - rewrite np_linspace_last. field. exact Hnz.
  - rewrite np_linspace_inner by lia. ring.
Qed.

End ExactGridEdges.

(** ** The further properties on concrete inputs *)

Module EdgeScenario.
Import Rational RationalLaws Example Edge.

Lemma CDF_wrt_prob_grid_width_witness :
  CDF_wrt_prob (evaluator ones3) samples_wide probs = Raise IndexError /\
  CDF_wrt_prob (evaluator ones3) samples probs
  = Ok (map (CDF_term_spec (evaluator ones3) samples) (seq 0 2)).
Proof.
  split.
  - apply (CDF_wrt_prob_grid_width (evaluator ones3) samples_wide probs 2 3 2 2);
      solve [repeat split | lia].
  - apply (CDF_wrt_prob_grid_width (evaluator ones3) samples probs 2 2 2 2);
      solve [repeat split | lia].
Defined.

Lemma CDF_wrt_prob_piecewise_constant_witness :
  exists c c',
    CDF_wrt_prob (evaluator ones3) samples probs = Ok c /\
    CDF_wrt_prob (evaluator ones3) samples_left [q 1] = Ok c' /\
    nth 0 c fzero = nth 0 c' fzero.
Proof.
  apply (CDF_wrt_prob_piecewise_constant
           (evaluator ones3) samples samples_left probs [q 1] 2 1 2 2 0 0);
    try solve [repeat split | lia].
  intros g i Hg Hi.
  destruct g as [|[|g]]; destruct i as [|[|i]]; try lia; reflexivity.
Defined.

Lemma CDF_wrt_prob_beyond_grid_witness :
  exists c, CDF_wrt_prob (evaluator ones3) samples_far [q 1] = Ok c /\ nth 0 c fzero = fzero.
Proof.
  apply (CDF_wrt_prob_beyond_grid (evaluator ones3) samples_far [q 1] 1 2 2 0);
    try solve [repeat split | lia].
  intros g i Hg Hi.
  destruct g as [|[|g]]; destruct i as [|[|i]]; try lia; reflexivity.
Defined.

Lemma moment_wrt_prob_matrix_rows_witness :
  moment_wrt_prob (evaluator_orders 2) samples probs = Raise IndexError /\
  moment_wrt_prob (evaluator_orders 0) samples probs
  = Ok (moment_wrt_prob_naive (evaluator_orders 0) samples).
Proof.
  split.
  - apply (moment_wrt_prob_matrix_rows (evaluator_orders 2) samples probs 2 2 1);
      repeat split.
  - apply (moment_wrt_prob_matrix_rows (evaluator_orders 0) samples probs 2 2 1);
      repeat split.
Defined.

Lemma moment_wrt_prob_width_mismatch_witness :
  moment_wrt_prob (evaluator ones3) samples_wide probs
  = Raise (ValueError "operands could not be broadcast together").
Proof.
  apply (moment_wrt_prob_width_mismatch (evaluator ones3) samples_wide probs 2 3 1 2);
    solve [repeat split | simpl; lia].
Defined.

Lemma corr_wrt_prob_matrix_width_witness :
  corr_wrt_prob (evaluator ones3) samples_wide probs = Raise IndexError.
Proof.
  apply (corr_wrt_prob_matrix_width (evaluator ones3) samples_wide probs 2 3 2);
    solve [repeat split | lia].
Defined.

Lemma moment_and_corr_entry_depend_on_row_witness :
  exists m m' r r',
    moment_wrt_prob (evaluator ones3) samples probs = Ok m /\
    moment_wrt_prob (evaluator ones3) samples_first [q 1] = Ok m' /\
    nth 0 m fzero = nth 0 m' fzero /\
    corr_wrt_prob (evaluator ones3) samples probs = Ok r /\
    corr_wrt_prob (evaluator ones3) samples_first [q 1] = Ok r' /\
    nth 0 r fzero = nth 0 r' fzero.
Proof.
  apply (moment_and_corr_entry_depend_on_row
           (evaluator ones3) samples samples_first probs [q 1] 2 1 2 0 0);
    try solve [repeat split | lia].
  intros i Hi. destruct i as [|[|i]]; try lia; reflexivity.
Defined.

Lemma gradient_wrt_probs_positive_weights_witness :
  gradient_wrt_probs (evaluator_sized 7 ones3) samples probs
  = Ok (weighted_sum (q 1) (q 1) (q 1) [q 3; q 3] [q 2; q 2] [q 1; q 1]) /\
  length (weighted_sum (q 1) (q 1) (q 1) [q 3; q 3] [q 2; q 2] [q 1; q 1]) = nrows samples.
Proof.
  apply (gradient_wrt_probs_positive_weights (evaluator_sized 7 ones3) samples probs).
  - reflexivity.
  - reflexivity.
  - reflexivity.
  - reflexivity.
  - apply numbers_inj. vm_compute. reflexivity.
  - apply numbers_inj. vm_compute. reflexivity.
  - apply numbers_inj. vm_compute. reflexivity.
Defined.

Lemma gradient_wrt_probs_size_mismatch_witness :
  gradient_wrt_probs (evaluator_sized 3 [q 1; q 0; q 0]) samples probs
  = Raise (ValueError "operands could not be broadcast together").
Proof.
  apply (gradient_wrt_probs_size_mismatch
           (evaluator_sized 3 [q 1; q 0; q 0]) samples probs (q 1) (q 0) (q 0) [q 3; q 3]).
  - reflexivity.
  - reflexivity.
  - reflexivity.
  - reflexivity.
  - apply numbers_inj. vm_compute. reflexivity.
  - simpl. lia.
  - simpl. lia.
  - simpl. lia.
Defined.

Lemma gradient_wrt_probs_size_one_broadcast_witness :
  gradient_wrt_probs (evaluator_sized 1 [q 1; q 0; q 0]) samples probs
  = Ok (map (fun k => fadd (fadd (fmul (q 1) (nth k [q 3; q 3] fzero)) (fmul (q 0) fzero))
                           (fmul (q 0) fzero))
            (seq 0 (nrows samples))).
Proof.
  apply (gradient_wrt_probs_size_one_broadcast
           (evaluator_sized 1 [q 1; q 0; q 0]) samples probs (q 1) (q 0) (q 0) [q 3; q 3]).
  - reflexivity.
  - reflexivity.
  - reflexivity.
  - reflexivity.
  - apply numbers_inj. vm_compute. reflexivity.
  - reflexivity.
Defined.

Lemma gradient_wrt_probs_no_positive_weight_witness :
  gradient_wrt_probs (evaluator [q 0; q 0; q (-1)]) samples_wide probs = Ok (np_zeros 2).
Proof.
  exact (gradient_wrt_probs_no_positive_weight
           (evaluator [q 0; q 0; q (-1)]) samples_wide probs (q 0) (q 0) (q (-1))
           eq_refl eq_refl eq_refl eq_refl).
Defined.

Lemma generate_cdf_grids_missing_bound_witness :
  generate_cdf_grids target_short 2 = Raise IndexError /\
  init srom target_short (Some [q 1]) "weird" 1 2 = Raise IndexError.
Proof.
  apply (generate_cdf_grids_missing_bound srom target_short (Some [q 1]) "weird" 1 2).
  intros [Hlo _]. simpl in Hlo. lia.
Defined.

Lemma init_stores_configuration_witness :
  exists g,
    init srom target None "sse" 1 2 = Ok g /\
    length (_weights g) = 3 /\ _metric g = "SSE"%string /\ has_shape (_x_grid g) 2 2.
Proof.
  destruct (init srom target None "sse" 1 2) as [g|e] eqn:Hinit.
  - exists g. split; [reflexivity|].
    destruct (init_stores_configuration srom target None "sse" 1 2 g Hinit)
      as (_ & _ & _ & _ & Hlen & Hmetric & _ & _ & Hshape).
    split; [exact Hlen|]. split; [exact Hmetric|exact Hshape].
  - vm_compute in Hinit. discriminate.
Defined.

Lemma init_from_stored_configuration_witness :
  exists g,
    init srom target None "sse" 1 2 = Ok g /\
    init (_SROM g) (_target g) (Some (_weights g)) (_metric g) (_max_moment g) 2 = Ok g.
Proof.
  eexists. split; [reflexivity|].
  apply (init_from_stored_configuration srom target None "sse" 1 2). reflexivity.
Defined.

Lemma generate_cdf_grids_few_points_witness :
  exists x_grid,
    generate_cdf_grids target 1 = Ok x_grid /\
    forall i, i < target_dim target ->
      col x_grid i = Ok [nth i (target_mins target) fzero].
Proof.
  apply (generate_cdf_grids_few_points target). split; simpl; lia.
Defined.

Lemma generate_cdf_grids_closed_form_witness :
  exists x_grid,
    generate_cdf_grids target 3 = Ok x_grid /\
    forall r i, r < 3 -> i < target_dim target ->
      get2 x_grid r i
      = Ok (fadd (nth i (target_mins target) fzero)
                 (fmul (of_nat r)
                       (fdiv (fsub (nth i (target_maxs target) fzero)
                                   (nth i (target_mins target) fzero))
                             (of_nat (3 - 1))))).
Proof.
  apply (generate_cdf_grids_closed_form target 3).
  - split; simpl; lia.
  - lia.
Defined.

Lemma nonpositive_weight_term_is_skipped_witness :
  gradient_wrt_probs (evaluator' [q 1; q 1; q (-2)]) samples probs
  = gradient_wrt_probs (evaluator [q 1; q 1; q (-2)]) samples probs.
Proof.
  apply (nonpositive_weight_term_is_skipped
           (evaluator [q 1; q 1; q (-2)]) (evaluator' [q 1; q 1; q (-2)])
           samples samples probs probs 2 (q (-2))).
  - lia.
  - reflexivity.
  - reflexivity.
  - reflexivity.
  - reflexivity.
  - intros u Hu Hne. destruct u as [|[|u]]; [reflexivity|reflexivity|lia].
Defined.

Lemma evaluate_no_positive_weight_witness :
  _SROM (fst (evaluate (evaluator_sized 7 [q 0; q 0; q (-1)]) samples_wide probs))
  = set_params (srom_sized 7) samples_wide probs /\
  snd (evaluate (evaluator_sized 7 [q 0; q 0; q (-1)]) samples_wide probs)
  = Ok (np_zeros 2).
Proof.
  exact (evaluate_no_positive_weight
           (evaluator_sized 7 [q 0; q 0; q (-1)]) samples_wide probs (q 0) (q 0) (q (-1))
           eq_refl eq_refl eq_refl eq_refl).
Defined.

End EdgeScenario.

(** ** The combined gradient in binary64 *)

Module FloatScenario.
Import PrimFloat Binary64.

(** C1 as stated fails for a weight of zero when the skipped term is not
    finite.  In binary64, with the weights [(1, 1, 0)] and a target whose
    correlation matrix is the identity, the three terms are [(3, 3)],
    [(2, 2)] and [(nan, nan)] (a difference is divided by zero), their
    weighted sum is [(nan, nan)], and [gradient_wrt_probs] returns
    [(5, 5)]. *)
Lemma gradient_wrt_probs_zero_weight_not_finite :
  exists c m r : list PrimFloat.float,
    CDF_wrt_prob (FloatExample.evaluator FloatExample.target_uncorrelated [1; 1; 0]%float)
                 FloatExample.samples FloatExample.probs = Ok c /\
    moment_wrt_prob (FloatExample.evaluator FloatExample.target_uncorrelated [1; 1; 0]%float)
                    FloatExample.samples FloatExample.probs = Ok m /\
    corr_wrt_prob (FloatExample.evaluator FloatExample.target_uncorrelated [1; 1; 0]%float)
                  FloatExample.samples FloatExample.probs = Ok r /\
    gradient_wrt_probs (FloatExample.evaluator FloatExample.target_uncorrelated [1; 1; 0]%float)
                       FloatExample.samples FloatExample.probs
    <> Ok (weighted_sum 1%float 1%float 0%float c m r).
Proof.
  eexists. eexists. eexists.
  split; [reflexivity|]. split; [reflexivity|]. split; [reflexivity|].
  intros E. apply (f_equal (Binary64.first_is 5%float)) in E.
  vm_compute in E. discriminate.
Qed.

Lemma gradient_wrt_probs_skip_equals_compute_witness :
  gradient_wrt_probs (FloatExample.evaluator FloatExample.target_correlated [1; 1; 0]%float)
                     FloatExample.samples FloatExample.probs
  = Ok (weighted_sum 1%float 1%float 0%float [3; 3]%float [2; 2]%float [4; 4]%float).
Proof.
  apply (gradient_wrt_probs_skip_equals_compute
           (FloatExample.evaluator FloatExample.target_correlated [1; 1; 0]%float)
           FloatExample.samples FloatExample.probs 1%float 1%float 0%float).
  - reflexivity.
  - reflexivity.
  - left. reflexivity.
  - left. reflexivity.
  - right. intros k. destruct k as [|[|k]]; [reflexivity|reflexivity|].
    destruct k; reflexivity.
  - reflexivity.
  - reflexivity.
  - reflexivity.
Defined.

End FloatScenario.
